(** * Centralized GNN passage controller

    A shallow embedding of [AgentCentralizedGNNPassage]
    (passage_gnn_simple/centralized_passage.py) and the properties of its
    per-tick control pipeline.

    Numbers.  The Python code computes in binary floating point (numpy
    float64, torch float32).  The embedding computes in the real numbers:
    every float is read as the real it denotes and rounding is left out, so
    [np.pi] is [PI], [np.linalg.norm] is the Euclidean norm and so on.

    Arrays.  One-dimensional numpy arrays and torch rows are [list R].  The
    observation tensors have a leading batch dimension of size one
    ([obs = {"pos": [[]], ...}], [logits[:, i]], [action[0]]); the embedding
    keeps the single batch row and drops the dimension.

    Exceptions.  A Python exception is a value [Raise e] of [result]; the
    node state reached so far is kept, as in Python. *)

From Stdlib Require Import Reals Lra List Arith Lia.
From stdpp Require Import base option list strings gmap.

Local Open Scope R_scope.

(** ** Exceptions *)

Inductive PyError :=
| IndexError
| KeyError
| ValueError
| RuntimeError
| ModelError.

Inductive result (A : Type) :=
| Ok (a : A)
| Raise (e : PyError).
Arguments Ok {A} a.
Arguments Raise {A} e.

Definition rbind {A B} (r : result A) (k : A -> result B) : result B :=
  match r with
  | Ok a => k a
  | Raise e => Raise e
  end.

Notation "x <-? r ; k" := (rbind r (fun x => k))
  (at level 100, r at next level, right associativity).

(** [l[i]] on a Python list or one-dimensional array. *)
Definition index {A} (l : list A) (i : nat) : result A :=
  match l !! i with
  | Some a => Ok a
  | None => Raise IndexError
  end.

(** ** numpy and torch primitives on rows *)

(** [np.clip(x, lo, hi)] and [torch.clamp(x, lo, hi)] on one element:
    [minimum(maximum(x, lo), hi)]. *)
Definition clip1 (x lo hi : R) : R := Rmin (Rmax x lo) hi.

Definition np_clip (a : list R) (lo hi : R) : list R :=
  map (fun x => clip1 x lo hi) a.

(** numpy's (and torch's) broadcasting of two one-dimensional operands: an
    operand of length one is stretched to the other's length, other length
    mismatches raise. *)
Definition broadcast {A B C} (op : A -> B -> C) (a : list A) (b : list B)
  : result (list C) :=
  match a, b with
  | [x], _ => Ok (map (op x) b)
  | _, [y] => Ok (map (fun x => op x y) a)
  | _, _ =>
      if (length a =? length b)%nat then Ok (zip_with op a b)
      else Raise ValueError
  end.

Definition np_sub : list R -> list R -> result (list R) := broadcast Rminus.
Definition np_add : list R -> list R -> result (list R) := broadcast Rplus.

(** [np.linalg.norm] of a one-dimensional array. *)
Definition norm (a : list R) : R :=
  sqrt (fold_right (fun x s => x * x + s) 0 a).

(** torch's broadcasting of two rows; torch reports a mismatch as a
    RuntimeError. *)
Definition torch_broadcast {A B C} (op : A -> B -> C) (a : list A)
    (b : list B) : result (list C) :=
  match broadcast op a b with
  | Ok r => Ok r
  | Raise _ => Raise RuntimeError
  end.

Fixpoint result_map {A B} (f : A -> result B) (l : list A)
  : result (list B) :=
  match l with
  | [] => Ok []
  | a :: l' =>
      b <-? f a ;
      t <-? result_map f l' ;
      Ok (b :: t)
  end.

(** [torch.Tensor(v)] for the sequence of rows [v = [[r1, ..., rn]]]: the
    rows must have one width. *)
Definition torch_Tensor (rows : list (list R)) : result (list (list R)) :=
  match rows with
  | [] => Ok []
  | r :: rest =>
      if forallb (fun r' => (length r' =? length r)%nat) rest then Ok rows
      else Raise ValueError
  end.

(** The rows of two tensors combined one to one. *)
Fixpoint zip_rows (op : R -> R -> R) (a b : list (list R))
  : result (list (list R)) :=
  match a, b with
  | [], [] => Ok []
  | r1 :: a', r2 :: b' =>
      r <-? torch_broadcast op r1 r2 ;
      t <-? zip_rows op a' b' ;
      Ok (r :: t)
  | _, _ => Raise RuntimeError
  end.

(** For broadcasting, the tensor of shape [1, 0] that [torch.Tensor([[]])]
    builds from no rows behaves as one row of width zero. *)
Definition as_rows (t : list (list R)) : list (list R) :=
  match t with
  | [] => [[]]
  | _ :: _ => t
  end.

(** Elementwise operation on two torch tensors given by their rows, with
    torch's broadcasting over the rows and within a row. *)
Definition tensor_binop (op : R -> R -> R) (a b : list (list R))
  : result (list (list R)) :=
  match a, b with
  | [], [] => Ok []
  | _, _ =>
      match as_rows a, as_rows b with
      | [r], b' => result_map (torch_broadcast op r) b'
      | a', [r] => result_map (fun r' => torch_broadcast op r' r) a'
      | a', b' => zip_rows op a' b'
      end
  end.

(** [torch.cat([a, b, c], dim=2)] on tensors of shape [1, n, _].  With no
    rows the tensors come from [torch.Tensor([[]])], have shape [1, 0] and
    no dimension 2: torch raises. *)
Fixpoint cat_rows (a b c : list (list R)) : result (list (list R)) :=
  match a, b, c with
  | [], [], [] => Ok []
  | r1 :: a', r2 :: b', r3 :: c' =>
      t <-? cat_rows a' b' c' ;
      Ok ((r1 ++ r2 ++ r3) :: t)
  | _, _, _ => Raise RuntimeError
  end.

Definition torch_cat_dim2 (a b c : list (list R)) : result (list (list R)) :=
  match a with
  | [] => Raise IndexError
  | _ :: _ => cat_rows a b c
  end.

(** [torch.chunk(logit, 2, dim=1)] unpacked into two names.  The chunk size
    is [ceil(w / 2)]; a width of one gives a single chunk and the
    unpacking raises; a width of zero gives two empty chunks. *)
Definition chunk2 (logit : list R) : result (list R * list R) :=
  let w := length logit in
  let s := ((w + 1) / 2)%nat in
  if (w =? 1)%nat then Raise ValueError
  else Ok (take s logit, drop s logit).

(** ** Messages and configuration *)

Module Point.
Record t := mk { x : R; y : R; z : R }.
End Point.

Record Pose := { position : Point.t }.

(** [freyja_msgs/CurrentState]: a fixed-size array of floats, of which the
    controller reads entries 0, 1 (position) and 3, 4 (velocity). *)
Record CurrentState := { state_vector : nat -> R }.

(** [freyja_msgs/ReferenceState]; the fields the controller leaves at their
    defaults are not listed. *)
Record ReferenceState := { vn : R; ve : R; yaw : R }.

(** The ROS parameters declared in [__init__] (the model path apart). *)
Record Params := {
  comm_range : R;
  max_v : R;
  max_a : R;
  goal_reached_dist : R
}.

Definition default_params : Params :=
  {| comm_range := 2; max_v := 1.5; max_a := 1; goal_reached_dist := 0.25 |}.

(** ** scipy's [Rotation], restricted to rotations about the z axis *)

Module Rotation.
Record t := from_euler_z { angle : R }.

Definition apply (r : t) (v : list R) : result (list R) :=
  match v with
  | [x; y; z] =>
      Ok [cos (angle r) * x - sin (angle r) * y;
          sin (angle r) * x + cos (angle r) * y;
          z]
  | _ => Raise ValueError
  end.

Definition inv (r : t) : t := from_euler_z (- angle r).
End Rotation.

(** ** DynamicsFilter *)

Definition action_constrain_vel_acc (P : Params) (action velocity : list R)
  : result (list R) :=
  let f := 4 in
  let clipped_v := np_clip action (- max_v P) (max_v P) in
  d <-? np_sub clipped_v velocity ;
  let desired_a := map (fun a => a / (1 / f)) d in
  let possible_a := np_clip desired_a (- max_a P) (max_a P) in
  possible_v <-? np_add velocity (map (fun a => a * (1 / f)) possible_a) ;
  Ok (np_clip possible_v (- max_v P) (max_v P)).

(** ** The node *)

(** What the node does to its collaborators, in order.  The calls of the
    policy boundary, the sampler and the filter are recorded where they are
    made, as a test double would count them.  [publish uuid msg] stands for
    [self._vel_pubs[uuid].publish(msg)]. *)
Inductive Event :=
| create_publisher (topic : string)
| create_subscription (topic : string)
| call_model (pos x : list (list R)) (comm_range : R)
| call_sample_action_from_logit (logit : list R)
| call_action_constrain_vel_acc (action velocity : list R)
| publish (uuid : string) (msg : ReferenceState).

(** The attributes of the node.  [start_poses] and [goal_poses] are
    inherited from [AgentStartGoal]; [start_poses] is kept in insertion
    order since the code reads its first value.  Publishers and
    subscriptions are represented by their topic.  [rng_pos] counts the
    standard normal draws taken so far from torch's global generator. *)
Record Node := {
  _vel_pubs : gmap string string;
  _state_subs : gmap string string;
  _current_states : gmap string CurrentState;
  _current_side : Rotation.t;
  start_poses : list (string * Pose);
  goal_poses : gmap string Pose;
  params : Params;
  rng_pos : nat
}.

(** The class attributes, with given poses and parameters. *)
Definition init_node (sp : list (string * Pose)) (gp : gmap string Pose)
    (P : Params) : Node :=
  {| _vel_pubs := ∅; _state_subs := ∅; _current_states := ∅;
     _current_side := Rotation.from_euler_z 0;
     start_poses := sp; goal_poses := gp; params := P; rng_pos := 0 |}.

Definition set_vel_pubs (f : gmap string string -> gmap string string)
    (w : Node) : Node :=
  {| _vel_pubs := f (_vel_pubs w); _state_subs := _state_subs w;
     _current_states := _current_states w; _current_side := _current_side w;
     start_poses := start_poses w; goal_poses := goal_poses w;
     params := params w; rng_pos := rng_pos w |}.

Definition set_state_subs (f : gmap string string -> gmap string string)
    (w : Node) : Node :=
  {| _vel_pubs := _vel_pubs w; _state_subs := f (_state_subs w);
     _current_states := _current_states w; _current_side := _current_side w;
     start_poses := start_poses w; goal_poses := goal_poses w;
     params := params w; rng_pos := rng_pos w |}.

Definition set_current_side (r : Rotation.t) (w : Node) : Node :=
  {| _vel_pubs := _vel_pubs w; _state_subs := _state_subs w;
     _current_states := _current_states w; _current_side := r;
     start_poses := start_poses w; goal_poses := goal_poses w;
     params := params w; rng_pos := rng_pos w |}.

Definition set_rng_pos (n : nat) (w : Node) : Node :=
  {| _vel_pubs := _vel_pubs w; _state_subs := _state_subs w;
     _current_states := _current_states w; _current_side := _current_side w;
     start_poses := start_poses w; goal_poses := goal_poses w;
     params := params w; rng_pos := n |}.

(** The subscription callback: the last report of an agent wins. *)
Definition _update_current_state (uuid : string) (msg : CurrentState)
    (w : Node) : Node :=
  {| _vel_pubs := _vel_pubs w; _state_subs := _state_subs w;
     _current_states := <[uuid := msg]> (_current_states w);
     _current_side := _current_side w;
     start_poses := start_poses w; goal_poses := goal_poses w;
     params := params w; rng_pos := rng_pos w |}.

(** A method: from a node state to a result, the new state and the events
    emitted. *)
Definition M (A : Type) : Type := Node -> result A * Node * list Event.

Definition ret {A} (a : A) : M A := fun w => (Ok a, w, []).

Definition bind {A B} (m : M A) (k : A -> M B) : M B :=
  fun w =>
    match m w with
    | (Ok a, w1, t1) =>
        match k a w1 with
        | (r, w2, t2) => (r, w2, t1 ++ t2)
        end
    | (Raise e, w1, t1) => (Raise e, w1, t1)
    end.

Notation "x <- m ;; k" := (bind m (fun x => k))
  (at level 100, m at next level, right associativity).
Notation "m ;; k" := (bind m (fun _ => k))
  (at level 100, right associativity).

Definition get : M Node := fun w => (Ok w, w, []).
Definition modify (f : Node -> Node) : M unit := fun w => (Ok tt, f w, []).
Definition tell (e : Event) : M unit := fun w => (Ok tt, w, [e]).
Definition lift {A} (r : result A) : M A := fun w => (r, w, []).

Fixpoint for_each {A} (body : A -> M unit) (l : list A) : M unit :=
  match l with
  | [] => ret tt
  | a :: l' => body a ;; for_each body l'
  end.

(** *** Channels *)

(** The body of the loop of [update_pubs_and_subs]. *)
Definition ensure_channels (uuid : string) : M unit :=
  w <- get ;;
  (match _vel_pubs w !! uuid with
   | None =>
       let topic := "/" +:+ uuid +:+ "/reference_state" in
       tell (create_publisher topic) ;;
       modify (set_vel_pubs <[uuid := topic]>)
   | Some _ => ret tt
   end) ;;
  w <- get ;;
  match _state_subs w !! uuid with
  | None =>
      let topic := "/" +:+ uuid +:+ "/current_state" in
      tell (create_subscription topic) ;;
      modify (set_state_subs <[uuid := topic]>)
  | Some _ => ret tt
  end.

Definition update_pubs_and_subs (controllable_agents : list string) : M unit :=
  for_each ensure_channels controllable_agents.

(** *** FrameNormalizer *)

Definition update_current_side : M unit :=
  w <- get ;;
  first <- lift (index (map snd (start_poses w)) 0) ;;
  if Rlt_dec 0 (Point.y (position first))
  then modify (set_current_side (Rotation.from_euler_z PI))
  else modify (set_current_side (Rotation.from_euler_z 0)).

(** *** ObservationBuilder *)

Record Obs := { goal : list (list R); pos : list (list R); vel : list (list R) }.

(** The loop of [step] over the controllable agents.  [obs] is the
    observation accumulated so far. *)
Fixpoint build_obs (w : Node) (controllable_agents : list string) (obs : Obs)
  : result Obs :=
  match controllable_agents with
  | [] => Ok obs
  | uuid :: rest =>
      match _current_states w !! uuid with
      | None => build_obs w rest obs
      | Some cs =>
          gp <-? match goal_poses w !! uuid with
                 | Some p => Ok p
                 | None => Raise KeyError
                 end ;
          g <-? Rotation.apply (_current_side w)
                  [Point.x (position gp); Point.y (position gp); 0] ;
          p <-? Rotation.apply (_current_side w)
                  [state_vector cs 0%nat; state_vector cs 1%nat; 0] ;
          v <-? Rotation.apply (_current_side w)
                  [state_vector cs 3%nat; state_vector cs 4%nat; 0] ;
          build_obs w rest
            {| goal := goal obs ++ [take 2 g];
               pos := pos obs ++ [take 2 p];
               vel := vel obs ++ [take 2 v] |}
      end
  end.

(** *** Goal test *)

#[global] Instance Rlt_decision (a b : R) : Decision (a < b) := Rlt_dec a b.

(** The dictionary comprehension [{agent: False for agent in agents}]. *)
Definition all_false (agents : list string) : gmap string bool :=
  foldl (fun d agent => <[agent := false]> d) ∅ agents.

(** The loop [for i, agent in enumerate(controllable_agents)] of [step],
    from index [i] on. *)
Fixpoint compute_dones (P : Params) (agents : list string) (obs : Obs)
    (i : nat) (dones : gmap string bool) : result (gmap string bool) :=
  match agents with
  | [] => Ok dones
  | agent :: rest =>
      p <-? index (pos obs) i ;
      g <-? index (goal obs) i ;
      d <-? np_sub p g ;
      let dist_goal := norm d in
      compute_dones P rest obs (S i)
        (<[agent := bool_decide (dist_goal < goal_reached_dist P)]> dones)
  end.

(** [{k: torch.Tensor(v) for k, v in obs.items()}]. *)
Definition obs_tensors (obs : Obs) : result Obs :=
  p <-? torch_Tensor (pos obs) ;
  v <-? torch_Tensor (vel obs) ;
  g <-? torch_Tensor (goal obs) ;
  Ok {| goal := g; pos := p; vel := v |}.

Section Controller.

(** The policy loaded from [model_path]: positions, features and
    communication range to one row of logits per agent. *)
Variable model :
  list (list R) -> list (list R) -> R -> result (list (list R)).

(** The random source: the standard normal draws torch's generator
    hands out, in order. *)
Variable randn : nat -> R.

(** *** ActionSampler *)

(** [Normal(loc, scale).sample()]: element [i] is [loc + scale * eps]
    for the next draw [eps]. *)
Fixpoint normal_sample (ms : list (R * R)) (n : nat) : list R :=
  match ms with
  | [] => []
  | (m, s) :: rest => (m + s * randn n) :: normal_sample rest (S n)
  end.

Definition sample_action_from_logit (logit : list R) : M (list R) :=
  w <- get ;;
  let max_v := max_v (params w) in
  ch <- lift (chunk2 logit) ;;
  let mean := fst ch in
  let log_std := snd ch in
  ms <- lift (torch_broadcast pair mean (map exp log_std)) ;;
  let action := normal_sample ms (rng_pos w) in
  modify (set_rng_pos (rng_pos w + length ms)) ;;
  ret (np_clip action (- max_v) max_v).

(** *** PolicyAdapter *)

Definition features (obs : Obs) : result (list (list R)) :=
  d <-? tensor_binop Rminus (goal obs) (pos obs) ;
  s <-? tensor_binop Rplus (pos obs) (vel obs) ;
  torch_cat_dim2 d (pos obs) s.

Fixpoint sample_actions (logits : list (list R)) : M (list (list R)) :=
  match logits with
  | [] => ret []
  | logit :: rest =>
      tell (call_sample_action_from_logit logit) ;;
      action <- sample_action_from_logit logit ;;
      actions <- sample_actions rest ;;
      ret (action :: actions)
  end.

Definition run_model (obs : Obs) : M (list (list R)) :=
  w <- get ;;
  let comm_range := comm_range (params w) in
  x <- lift (features obs) ;;
  tell (call_model (pos obs) x comm_range) ;;
  logits <- lift (model (pos obs) x comm_range) ;;
  sample_actions logits.

(** *** ControlStep *)

(** The body of the loop over [zip(controllable_agents, actions, vel)]. *)
Definition publish_command (item : string * list R * list R) : M unit :=
  let '(uuid, action, velocity) := item in
  w <- get ;;
  match _vel_pubs w !! uuid with
  | None => ret tt
  | Some _ =>
      tell (call_action_constrain_vel_acc action velocity) ;;
      proc_action <- lift (action_constrain_vel_acc (params w) action velocity) ;;
      rotated <- lift (Rotation.apply (_current_side w) (proc_action ++ [0])) ;;
      let action_rot := take 2 rotated in
      n <- lift (index action_rot 0) ;;
      e <- lift (index action_rot 1) ;;
      tell (publish uuid {| vn := n; ve := e; yaw := PI / 2 |})
  end.

(** [step]; its second argument [state_dict] is never read and is left
    out. *)
Definition step (controllable_agents : list string) : M (gmap string bool) :=
  update_pubs_and_subs controllable_agents ;;
  update_current_side ;;
  w <- get ;;
  if negb (size (_current_states w) =? length controllable_agents)%nat
  then ret (all_false controllable_agents)
  else
    obs <- lift (build_obs w controllable_agents
                   {| goal := []; pos := []; vel := [] |}) ;;
    tensors <- lift (obs_tensors obs) ;;
    actions <- run_model tensors ;;
    for_each publish_command
      (zip (zip controllable_agents actions) (vel obs)) ;;
    w <- get ;;
    lift (compute_dones (params w) controllable_agents obs 0 ∅).

End Controller.

(** ** The filter as the specification words it *)

(** [clamp(x, lo, hi)]. *)
Definition clamp (x lo hi : R) : R :=
  if Rlt_dec x lo then lo else if Rlt_dec hi x then hi else x.

(** One axis of the DynamicsFilter of the specification, with the control
    frequency [f] as an argument. *)
Definition DynamicsFilter_axis (maxV maxA f v_raw v_cur : R) : R :=
  let v_clip := clamp v_raw (- maxV) maxV in
  let a_des := (v_clip - v_cur) * f in
  let a_poss := clamp a_des (- maxA) maxA in
  let v_poss := v_cur + a_poss / f in
  clamp v_poss (- maxV) maxV.

(** The guarantee of the specification for the filter run at frequency [f]
    on a planar command: the formula on each axis, the velocity bound and
    the acceleration bound. *)
Definition filter_guarantee (P : Params) (f : R) (v_raw v_cur : R * R) : Prop :=
  exists ox oy,
    action_constrain_vel_acc P [v_raw.1; v_raw.2] [v_cur.1; v_cur.2]
      = Ok [ox; oy] /\
    ox = DynamicsFilter_axis (max_v P) (max_a P) f v_raw.1 v_cur.1 /\
    oy = DynamicsFilter_axis (max_v P) (max_a P) f v_raw.2 v_cur.2 /\
    Rabs ox <= max_v P /\ Rabs oy <= max_v P /\
    Rabs (ox - v_cur.1) <= max_a P / f /\
    Rabs (oy - v_cur.2) <= max_a P / f.

(** The filter computes with the configured frequency [f]. *)
Definition filter_uses_frequency (f : R) : Prop :=
  forall P ax ay vx vy,
    0 < max_v P -> 0 < max_a P ->
    action_constrain_vel_acc P [ax; ay] [vx; vy]
      = Ok [DynamicsFilter_axis (max_v P) (max_a P) f ax vx;
            DynamicsFilter_axis (max_v P) (max_a P) f ay vy].

(** ** Vocabulary of the statements *)

(** The events of the action phase of a tick: calls of the policy, of the
    sampler and of the filter, and published commands. *)
Definition pipeline_event (e : Event) : bool :=
  match e with
  | create_publisher _ | create_subscription _ => false
  | call_model _ _ _ | call_sample_action_from_logit _
  | call_action_constrain_vel_acc _ _ | publish _ _ => true
  end.

(** The planar part of a vector [(x, y, 0)] rotated by [r]. *)
Definition canonical (r : Rotation.t) (x y : R) : list R :=
  [cos (Rotation.angle r) * x - sin (Rotation.angle r) * y;
   sin (Rotation.angle r) * x + cos (Rotation.angle r) * y].

(** The controllable agents with a recorded state, in the caller's order. *)
Definition known_agents (w : Node) (agents : list string) : list string :=
  filter (fun u => is_Some (_current_states w !! u)) agents.

(** Euclidean distance in the plane. *)
Definition distance (px py gx gy : R) : R :=
  sqrt ((px - gx) * (px - gx) + (py - gy) * (py - gy)).

(** The agents a trace publishes commands to, in order. *)
Definition published (evs : list Event) : list string :=
  omap (fun e => match e with publish uuid _ => Some uuid | _ => None end) evs.

(** The contract of the policy boundary for a planar Gaussian head: one row
    of logits per agent, each a mean and a log-std of two components. *)
Definition planar_policy
    (model : list (list R) -> list (list R) -> R -> result (list (list R)))
  : Prop :=
  forall p x c,
    exists logits,
      model p x c = Ok logits /\
      length logits = length p /\
      Forall (fun logit => length logit = 4%nat) logits.

(** What [build_obs] appends for an agent [u] with a recorded state. *)
Definition obs_row (w : Node) (u : string) (row : list R * list R * list R)
  : Prop :=
  exists cs gp,
    _current_states w !! u = Some cs /\
    goal_poses w !! u = Some gp /\
    row = (canonical (_current_side w)
             (Point.x (position gp)) (Point.y (position gp)),
           canonical (_current_side w)
             (state_vector cs 0%nat) (state_vector cs 1%nat),
           canonical (_current_side w)
             (state_vector cs 3%nat) (state_vector cs 4%nat)).

(** The part of [step] that follows the observation loop. *)
Definition action_phase
    (model : list (list R) -> list (list R) -> R -> result (list (list R)))
    (randn : nat -> R) (agents : list string) (obs : Obs)
  : M (gmap string bool) :=
  tensors <- lift (obs_tensors obs) ;;
  actions <- run_model model randn tensors ;;
  for_each publish_command (zip (zip agents actions) (vel obs)) ;;
  w <- get ;;
  lift (compute_dones (params w) agents obs 0 ∅).

(** [preserves f m]: whatever [m] returns, raising included, it leaves
    the observation [f] of the node as it was. *)
Definition preserves {A X} (f : Node -> X) (m : M A) : Prop :=
  forall w, f (m w).1.2 = f w.

(** Observations of the node that ignore the generator, or the channels. *)
Definition ignores_rng {X} (f : Node -> X) : Prop :=
  forall n w, f (set_rng_pos n w) = f w.

Definition ignores_channels {X} (f : Node -> X) : Prop :=
  (forall g w, f (set_vel_pubs g w) = f w) /\
  (forall g w, f (set_state_subs g w) = f w).

(** The topics of the channels of an agent. *)
Definition reference_topic (uuid : string) : string :=
  "/" +:+ uuid +:+ "/reference_state".

Definition state_topic (uuid : string) : string :=
  "/" +:+ uuid +:+ "/current_state".

(** A channel map after the agents of a list have been given their topic:
    an entry that was there stays, a listed agent without one gets its
    topic, the others stay without. *)
Definition channel_after (topic : string -> string) (agents : list string)
    (old : gmap string string) (u : string) : option string :=
  match old !! u with
  | Some t => Some t
  | None => if decide (u ∈ agents) then Some (topic u) else None
  end.

(** A published command that respects the velocity bound on each axis and
    carries the fixed heading; other events pass. *)
Definition bounded_command (P : Params) (e : Event) : Prop :=
  match e with
  | publish _ msg =>
      Rabs (vn msg) <= max_v P /\ Rabs (ve msg) <= max_v P /\
      yaw msg = PI / 2
  | _ => True
  end.

(** A policy stub that fails. *)
Definition failing_policy (p x : list (list R)) (c : R)
  : result (list (list R)) := Raise ModelError.

(** The node as the first two calls of [step] leave it: channels ensured,
    frame recomputed. *)
Definition after_prologue (agents : list string) (w : Node) : Node :=
  (update_current_side (update_pubs_and_subs agents w).1.2).1.2.

(** The part of [step] that follows the call of the policy, for the logits
    the policy returned: sampling, commands, done flags. *)
Definition after_policy (randn : nat -> R) (agents : list string) (obs : Obs)
    (logits : list (list R)) : M (gmap string bool) :=
  actions <- sample_actions randn logits ;;
  for_each publish_command (zip (zip agents actions) (vel obs)) ;;
  w <- get ;;
  lift (compute_dones (params w) agents obs 0 ∅).

(** [run_model] hands the features to the policy: it applies the model to
    the positions, a feature tensor [x] of one row (goal - pos, pos,
    pos + vel) per agent and the communication range, records the call
    first, and goes on with what the model returned. *)
Definition hands_features_to_policy
    (model : list (list R) -> list (list R) -> R -> result (list (list R)))
    (randn : nat -> R) (obs : Obs) (w : Node) : Prop :=
  exists x r w' evs,
    run_model model randn obs w
    = (r, w', call_model (pos obs) x (comm_range (params w)) :: evs) /\
    match model (pos obs) x (comm_range (params w)) with
    | Ok logits => sample_actions randn logits w = (r, w', evs)
    | Raise e => (r, w', evs) = (Raise e, w, [])
    end /\
    length x = length (pos obs) /\
    (forall i gx gy px py vx vy,
       goal obs !! i = Some [gx; gy] ->
       pos obs !! i = Some [px; py] ->
       vel obs !! i = Some [vx; vy] ->
       x !! i = Some [gx - px; gy - py; px; py; px + vx; py + vy]).

(** A tick calls the policy. *)
Definition tick_calls_policy
    (model : list (list R) -> list (list R) -> R -> result (list (list R)))
    (randn : nat -> R) (agents : list string) (w : Node) : Prop :=
  exists p x c res w' evs1 evs2,
    step model randn agents w = (res, w', evs1 ++ call_model p x c :: evs2).

(** ** Example configurations *)

Definition pose_at (x y : R) : Pose := {| position := Point.mk x y 0 |}.

Definition state_at (px py vx vy : R) : CurrentState :=
  {| state_vector := fun i =>
       match i with
       | 0%nat => px
       | 1%nat => py
       | 3%nat => vx
       | 4%nat => vy
       | _ => 0
       end |}.

(** A policy stub: zero mean and zero log-std for every agent. *)
Definition zero_policy (p x : list (list R)) (c : R)
  : result (list (list R)) :=
  Ok (map (fun _ => [0; 0; 0; 0]) p).

Definition no_noise : nat -> R := fun _ => 0.

(** One agent a1 has reported: it stands at the origin, started on the far
    side (y > 0) and has its goal at (0.2, 0). *)
Definition demo_node : Node :=
  _update_current_state "a1" (state_at 0 0 0 0)
    (init_node [("a1", pose_at 0 1)] {["a1" := pose_at 0.2 0]}
       default_params).

(** As [demo_node], with a report from an agent c that is not controlled. *)
Definition crowded_node : Node :=
  _update_current_state "c" (state_at 5 5 0 0) demo_node.

(** A one-agent observation. *)
Definition demo_obs : Obs :=
  {| goal := [[1; 2]]; pos := [[0; 0]]; vel := [[0.5; 0.5]] |}.

(** A policy that fails when it is given exactly one agent, and answers
    zero logits otherwise. *)
Definition lonely_policy (p x : list (list R)) (c : R)
  : result (list (list R)) :=
  match p with
  | [_] => Raise ModelError
  | _ => zero_policy p x c
  end.

(** The observation of no agent. *)
Definition empty_obs : Obs := {| goal := []; pos := []; vel := [] |}.

(** * Properties *)

(** ** Clipping *)

Ltac case_minmax :=
  unfold clip1, clamp, Rmin, Rmax in *;
  repeat match goal with
         | |- context [Rle_dec ?a ?b] => destruct (Rle_dec a b)
         | |- context [Rlt_dec ?a ?b] => destruct (Rlt_dec a b)
         | H : context [Rle_dec ?a ?b] |- _ => destruct (Rle_dec a b)
         | H : context [Rlt_dec ?a ?b] |- _ => destruct (Rlt_dec a b)
         end.

Lemma Rabs_le_between a b : Rabs a <= b -> - b <= a <= b.
Proof. unfold Rabs. destruct (Rcase_abs a); lra. Qed.

Lemma clip1_clamp x lo hi : lo <= hi -> clip1 x lo hi = clamp x lo hi.
Proof. intros. case_minmax; lra. Qed.

Lemma clip1_bounds x lo hi : lo <= hi -> lo <= clip1 x lo hi <= hi.
Proof. intros. case_minmax; lra. Qed.

Lemma clamp_bounds x lo hi : lo <= hi -> lo <= clamp x lo hi <= hi.
Proof. intros. case_minmax; lra. Qed.

(** The code of the filter on one axis, as the composition the method
    performs elementwise. *)
Lemma filter_axis_code maxV maxA a v :
  0 < maxV -> 0 < maxA ->
  clip1 (v + clip1 ((clip1 a (- maxV) maxV - v) / (1 / 4)) (- maxA) maxA * (1 / 4))
    (- maxV) maxV
  = DynamicsFilter_axis maxV maxA 4 a v.
Proof.
  intros HV HA. unfold DynamicsFilter_axis.
  rewrite !clip1_clamp by lra.
  replace ((clamp a (- maxV) maxV - v) / (1 / 4))
    with ((clamp a (- maxV) maxV - v) * 4) by field.
  f_equal. f_equal. field.
Qed.

Lemma action_constrain_vel_acc_planar P ax ay vx vy :
  action_constrain_vel_acc P [ax; ay] [vx; vy]
  = Ok [clip1 (vx + clip1 ((clip1 ax (- max_v P) (max_v P) - vx) / (1 / 4))
                      (- max_a P) (max_a P) * (1 / 4)) (- max_v P) (max_v P);
        clip1 (vy + clip1 ((clip1 ay (- max_v P) (max_v P) - vy) / (1 / 4))
                      (- max_a P) (max_a P) * (1 / 4)) (- max_v P) (max_v P)].
Proof. reflexivity. Qed.

Lemma DynamicsFilter_axis_vel maxV maxA f a v :
  0 < maxV -> Rabs (DynamicsFilter_axis maxV maxA f a v) <= maxV.
Proof.
  intros HV. unfold DynamicsFilter_axis. apply Rabs_le.
  apply clamp_bounds. lra.
Qed.

Lemma DynamicsFilter_axis_acc maxV maxA f a v :
  0 < maxV -> 0 < maxA -> 0 < f -> Rabs v <= maxV ->
  Rabs (DynamicsFilter_axis maxV maxA f a v - v) <= maxA / f.
Proof.
  intros HV HA Hf Hv. unfold DynamicsFilter_axis.
  apply Rabs_le_between in Hv.
  set (a_poss := clamp _ (- maxA) maxA).
  assert (Ha : - maxA <= a_poss <= maxA) by (apply clamp_bounds; lra).
  assert (Hq : - (maxA / f) <= a_poss / f <= maxA / f).
  { unfold Rdiv. assert (0 < / f) by (apply Rinv_0_lt_compat; lra).
    split; nra. }
  apply Rabs_le. generalize dependent (a_poss / f). intros q Hq.
  generalize dependent (maxA / f). intros b Hq.
  unfold clamp. repeat destruct (Rlt_dec _ _); lra.
Qed.

(** ** DynamicsFilter (C1, C6) *)

Lemma filter_scenario :
  action_constrain_vel_acc default_params [10; 0] [0; 0] = Ok [0.25; 0].
Proof.
  rewrite action_constrain_vel_acc_planar. simpl.
  f_equal. f_equal; [| f_equal]; case_minmax; lra.
Qed.

Lemma filter_fast_agent :
  action_constrain_vel_acc default_params [0; 0] [10; 0] = Ok [1.5; 0].
Proof.
  rewrite action_constrain_vel_acc_planar. simpl.
  f_equal. f_equal; [| f_equal]; case_minmax; lra.
Qed.

(** C1, as amended.  With positive bounds, the filter returns on each
    planar axis the value of the specification's formula at the control
    frequency 4.0, the one frequency the method computes with.  The output
    is within the velocity bound on each axis, and on an axis where the
    current velocity is itself within the velocity bound it differs from the
    current velocity by at most maxA / 4.  At v_cur = (0,0), v_raw = (10,0),
    maxV = 1.5 and maxA = 1.0 the output is (0.25, 0). *)
Theorem action_constrain_vel_acc_guarantee (P : Params) (v_raw v_cur : R * R) :
  0 < max_v P -> 0 < max_a P ->
  (exists ox oy,
     action_constrain_vel_acc P [v_raw.1; v_raw.2] [v_cur.1; v_cur.2]
       = Ok [ox; oy] /\
     ox = DynamicsFilter_axis (max_v P) (max_a P) 4 v_raw.1 v_cur.1 /\
     oy = DynamicsFilter_axis (max_v P) (max_a P) 4 v_raw.2 v_cur.2 /\
     Rabs ox <= max_v P /\ Rabs oy <= max_v P /\
     (Rabs v_cur.1 <= max_v P -> Rabs (ox - v_cur.1) <= max_a P / 4) /\
     (Rabs v_cur.2 <= max_v P -> Rabs (oy - v_cur.2) <= max_a P / 4))
  /\ action_constrain_vel_acc default_params [10; 0] [0; 0] = Ok [0.25; 0].
Proof.
  intros HV HA. split; [| exact filter_scenario].
  destruct v_raw as [ax ay], v_cur as [vx vy]. simpl.
  eexists _, _. split.
  { rewrite action_constrain_vel_acc_planar, !filter_axis_code by assumption.
    reflexivity. }
  repeat split; auto using DynamicsFilter_axis_vel.
  - intros Hv. apply DynamicsFilter_axis_acc; lra.
  - intros Hv. apply DynamicsFilter_axis_acc; lra.
Qed.

Lemma action_constrain_vel_acc_guarantee_witness :
  0 < max_v default_params /\ 0 < max_a default_params /\
  action_constrain_vel_acc default_params [10; 0] [0; 0] = Ok [0.25; 0].
Proof.
  assert (HV : 0 < max_v default_params) by (simpl; lra).
  assert (HA : 0 < max_a default_params) by (simpl; lra).
  split; [exact HV |]. split; [exact HA |].
  exact (proj2 (action_constrain_vel_acc_guarantee
                  default_params (10, 0) (0, 0) HV HA)).
Defined.

(** C1 as stated fails twice.  At the frequency the code runs at, f = 4,
    an agent moving at 10 along the first axis with maxV = 1.5, maxA = 1 is
    commanded 1.5, which is 8.5 away from its current velocity and not
    within maxA / f = 0.25.  At any other frequency, here f = 2, the output
    is not the value of the formula: the code returns 0.25 where the formula
    gives 0.5. *)
Lemma filter_guarantee_fails :
  ~ filter_guarantee default_params 4 (0, 0) (10, 0) /\
  ~ filter_guarantee default_params 2 (10, 0) (0, 0).
Proof.
  split; intros (ox & oy & Hout & Hx & Hy & _ & _ & Hax & _); simpl in *.
  - rewrite filter_fast_agent in Hout. injection Hout as <- <-.
    apply Rabs_le_between in Hax. lra.
  - rewrite filter_scenario in Hout. injection Hout as <- <-.
    revert Hx. unfold DynamicsFilter_axis. case_minmax; lra.
Qed.

(** C6 as stated fails: with the frequency configured to 2 the output is
    still the one computed at 4. *)
Lemma filter_ignores_configured_frequency : ~ filter_uses_frequency 2.
Proof.
  intros H. specialize (H default_params 10 0 0 0).
  rewrite filter_scenario in H. simpl in H.
  assert (HV : 0 < 1.5) by lra. assert (HA : 0 < 1) by lra.
  specialize (H HV HA). injection H as Hx _.
  revert Hx. unfold DynamicsFilter_axis. case_minmax; lra.
Qed.

(** C6, as amended.  The control frequency of the filter is the constant 4.0
    written in the method (the value the specification gives as the
    default); it is not read from the configuration.  The output is
    computed at frequency f exactly when f = 4. *)
Theorem filter_frequency_is_fixed (f : R) :
  0 < f -> (filter_uses_frequency f <-> f = 4).
Proof.
  intros Hf. split.
  - intros H. specialize (H default_params 10 0 0 0).
    rewrite filter_scenario in H. simpl in H.
    assert (HV : 0 < 1.5) by lra. assert (HA : 0 < 1) by lra.
    specialize (H HV HA). injection H as Hx _.
    assert (E1 : f * (1 / f) = 1) by (field; lra).
    assert (E2 : (1.5 - 0) * f / f = 1.5) by (field; lra).
    revert Hx. unfold DynamicsFilter_axis.
    replace (clamp 10 (- 1.5) 1.5) with 1.5 by (case_minmax; lra).
    case_minmax; intros Hx; try lra; nra.
  - intros -> P ax ay vx vy HV HA.
    rewrite action_constrain_vel_acc_planar, !filter_axis_code by assumption.
    reflexivity.
Qed.

Lemma filter_frequency_is_fixed_witness :
  0 < 4 /\ (filter_uses_frequency 4 <-> 4 = 4).
Proof.
  assert (H4 : 0 < 4) by lra.
  split; [exact H4 | exact (filter_frequency_is_fixed 4 H4)].
Defined.

(** ** Reasoning about methods *)

Lemma bind_Ok_intro {A B} (m : M A) (k : A -> M B) w a w1 t1 r w2 t2 :
  m w = (Ok a, w1, t1) -> k a w1 = (r, w2, t2) ->
  bind m k w = (r, w2, t1 ++ t2).
Proof. intros Hm Hk. unfold bind. rewrite Hm, Hk. reflexivity. Qed.

Lemma bind_Ok_inv {A B} (m : M A) (k : A -> M B) w b w2 t :
  bind m k w = (Ok b, w2, t) ->
  exists a w1 t1 t2,
    m w = (Ok a, w1, t1) /\ k a w1 = (Ok b, w2, t2) /\ t = t1 ++ t2.
Proof.
  unfold bind. destruct (m w) as [[[a | e] w1] t1]; [| discriminate].
  destruct (k a w1) as [[r w2'] t2] eqn:Hk. intros [= -> -> <-].
  exists a, w1, t1, t2. auto.
Qed.

Lemma bind_post {A B} (m : M A) (k : A -> M B) w a w1 t1 :
  m w = (Ok a, w1, t1) -> (bind m k w).1.2 = (k a w1).1.2.
Proof.
  intros Hm. unfold bind. rewrite Hm.
  destruct (k a w1) as [[r w2] t2]. reflexivity.
Qed.

Lemma lift_Ok_inv {A} (r : result A) w a w' t :
  lift r w = (Ok a, w', t) -> r = Ok a /\ w' = w /\ t = [].
Proof. unfold lift. intros [= -> -> <-]. auto. Qed.

Lemma preserves_ret {A X} (f : Node -> X) (a : A) : preserves f (ret a).
Proof. intros w. reflexivity. Qed.

Lemma preserves_get {X} (f : Node -> X) : preserves f get.
Proof. intros w. reflexivity. Qed.

Lemma preserves_tell {X} (f : Node -> X) e : preserves f (tell e).
Proof. intros w. reflexivity. Qed.

Lemma preserves_lift {A X} (f : Node -> X) (r : result A) :
  preserves f (lift r).
Proof. intros w. reflexivity. Qed.

Lemma preserves_modify {X} (f : Node -> X) g :
  (forall w, f (g w) = f w) -> preserves f (modify g).
Proof. intros H w. apply H. Qed.

Lemma preserves_bind {A B X} (f : Node -> X) (m : M A) (k : A -> M B) :
  preserves f m -> (forall a, preserves f (k a)) -> preserves f (bind m k).
Proof.
  intros Hm Hk w. unfold bind. specialize (Hm w).
  destruct (m w) as [[[a | e] w1] t1]; simpl in *; [| assumption].
  specialize (Hk a w1). destruct (k a w1) as [[r w2] t2]. simpl in *.
  congruence.
Qed.

Lemma preserves_for_each {A X} (f : Node -> X) (body : A -> M unit) l :
  (forall a, preserves f (body a)) -> preserves f (for_each body l).
Proof.
  intros Hb. induction l as [| a l IH]; simpl.
  - apply preserves_ret.
  - apply preserves_bind; auto.
Qed.

Ltac preserves_step :=
  first
    [ apply preserves_ret | apply preserves_get | apply preserves_tell
    | apply preserves_lift
    | apply preserves_bind; [| intros ?]
    | apply preserves_for_each; intros ?
    | apply preserves_modify; solve [auto] ].

Lemma ensure_channels_preserves {X} (f : Node -> X) uuid :
  ignores_channels f -> preserves f (ensure_channels uuid).
Proof.
  intros [Hp Hs]. unfold ensure_channels.
  apply preserves_bind; [apply preserves_get | intros w1].
  apply preserves_bind.
  - destruct (_vel_pubs w1 !! uuid); repeat preserves_step.
  - intros _. apply preserves_bind; [apply preserves_get | intros w2].
    destruct (_state_subs w2 !! uuid); repeat preserves_step.
Qed.

Lemma update_pubs_and_subs_preserves {X} (f : Node -> X) agents :
  ignores_channels f -> preserves f (update_pubs_and_subs agents).
Proof.
  intros Hf. apply preserves_for_each. intros uuid.
  apply ensure_channels_preserves, Hf.
Qed.

Lemma sample_action_from_logit_preserves {X} (f : Node -> X) randn logit :
  ignores_rng f -> preserves f (sample_action_from_logit randn logit).
Proof. intros Hf. unfold sample_action_from_logit. repeat preserves_step. Qed.

Lemma sample_actions_preserves {X} (f : Node -> X) randn logits :
  ignores_rng f -> preserves f (sample_actions randn logits).
Proof.
  intros Hf. induction logits as [| l ls IH]; simpl.
  - apply preserves_ret.
  - apply preserves_bind; [apply preserves_tell | intros _].
    apply preserves_bind;
      [apply sample_action_from_logit_preserves; assumption | intros a].
    apply preserves_bind; [assumption | intros ?; apply preserves_ret].
Qed.

Lemma run_model_preserves {X} (f : Node -> X) model randn obs :
  ignores_rng f -> preserves f (run_model model randn obs).
Proof.
  intros Hf. unfold run_model.
  apply preserves_bind; [apply preserves_get | intros w].
  apply preserves_bind; [apply preserves_lift | intros x].
  apply preserves_bind; [apply preserves_tell | intros _].
  apply preserves_bind; [apply preserves_lift | intros logits].
  apply sample_actions_preserves; assumption.
Qed.

Lemma publish_command_preserves {X} (f : Node -> X) item :
  preserves f (publish_command item).
Proof.
  destruct item as [[uuid action] velocity]. unfold publish_command.
  apply preserves_bind; [apply preserves_get | intros w].
  destruct (_vel_pubs w !! uuid); repeat preserves_step.
Qed.

(** ** FrameNormalizer (C4, C7) *)

Lemma update_current_side_run w k p rest :
  start_poses w = (k, p) :: rest ->
  update_current_side w
  = (Ok tt,
     set_current_side
       (Rotation.from_euler_z
          (if Rlt_dec 0 (Point.y (position p)) then PI else 0)) w,
     []).
Proof.
  intros Hs. unfold update_current_side, bind, get, lift, index.
  rewrite Hs. simpl. destruct (Rlt_dec 0 (Point.y (position p))); reflexivity.
Qed.

Lemma update_current_side_empty w :
  start_poses w = [] -> update_current_side w = (Raise IndexError, w, []).
Proof.
  intros Hs. unfold update_current_side, bind, get, lift, index.
  rewrite Hs. reflexivity.
Qed.

Lemma update_current_side_Ok_inv w w' evs :
  update_current_side w = (Ok tt, w', evs) ->
  exists a, (a = 0 \/ a = PI) /\
    w' = set_current_side (Rotation.from_euler_z a) w /\ evs = [].
Proof.
  destruct (start_poses w) as [| [k p] rest] eqn:Hs.
  - rewrite update_current_side_empty by assumption. discriminate.
  - rewrite (update_current_side_run _ _ _ _ Hs). intros [= <- <-].
    destruct (Rlt_dec 0 (Point.y (position p))); eauto.
Qed.

Lemma apply_half_turn x y z :
  Rotation.apply (Rotation.from_euler_z PI) [x; y; z] = Ok [- x; - y; z].
Proof.
  unfold Rotation.apply. simpl. rewrite cos_PI, sin_PI.
  f_equal. f_equal; [| f_equal]; lra.
Qed.

Lemma apply_identity x y z :
  Rotation.apply (Rotation.from_euler_z 0) [x; y; z] = Ok [x; y; z].
Proof.
  unfold Rotation.apply. simpl. rewrite cos_0, sin_0.
  f_equal. f_equal; [| f_equal]; lra.
Qed.

Lemma apply_inv_half_turn x y z :
  Rotation.apply (Rotation.inv (Rotation.from_euler_z PI)) [x; y; z]
  = Ok [- x; - y; z].
Proof.
  unfold Rotation.apply, Rotation.inv. simpl.
  rewrite cos_neg, sin_neg, cos_PI, sin_PI.
  f_equal. f_equal; [| f_equal]; lra.
Qed.

Lemma apply_inv_identity x y z :
  Rotation.apply (Rotation.inv (Rotation.from_euler_z 0)) [x; y; z]
  = Ok [x; y; z].
Proof.
  unfold Rotation.apply, Rotation.inv. simpl.
  rewrite cos_neg, sin_neg, cos_0, sin_0.
  f_equal. f_equal; [| f_equal]; lra.
Qed.

(** C4.  Let t be the frame transform [update_current_side] has just set
    (the identity or the half turn about the vertical axis).  Applying t to
    a vector (x, y, z) changes the planar components only, and applying to
    the result either the inverse of t or, as [step] does for the outgoing
    command, t itself gives (x, y, z) back. *)
Theorem frame_roundtrip (w w' : Node) (evs : list Event) (x y z : R) :
  update_current_side w = (Ok tt, w', evs) ->
  exists cx cy,
    Rotation.apply (_current_side w') [x; y; z] = Ok [cx; cy; z] /\
    Rotation.apply (Rotation.inv (_current_side w')) [cx; cy; z]
      = Ok [x; y; z] /\
    Rotation.apply (_current_side w') [cx; cy; z] = Ok [x; y; z].
Proof.
  intros Hrun. apply update_current_side_Ok_inv in Hrun.
  destruct Hrun as (a & [-> | ->] & -> & _);
    unfold set_current_side; cbn [_current_side].
  - exists x, y.
    rewrite apply_identity, apply_inv_identity. auto.
  - exists (- x), (- y).
    rewrite !apply_half_turn, apply_inv_half_turn, !Ropp_involutive. auto.
Qed.

(** ** Channels *)

Lemma ensure_channels_run uuid w :
  exists w1 evs,
    ensure_channels uuid w = (Ok tt, w1, evs) /\
    Forall (fun e => pipeline_event e = false) evs /\
    is_Some (_vel_pubs w1 !! uuid) /\
    (forall u, is_Some (_vel_pubs w !! u) -> is_Some (_vel_pubs w1 !! u)).
Proof.
  unfold ensure_channels, bind, get, tell, modify, ret.
  destruct (_vel_pubs w !! uuid) as [t |] eqn:Hp; simpl.
  - destruct (_state_subs w !! uuid) as [t' |] eqn:Hs; simpl;
      eexists _, _; (split; [reflexivity |]); simpl;
      (split; [repeat constructor |]); rewrite Hp; eauto.
  - destruct (_state_subs w !! uuid) as [t' |] eqn:Hs; simpl;
      eexists _, _; (split; [reflexivity |]); simpl;
      (split; [repeat constructor |]);
      (split; [rewrite lookup_insert_eq; eauto |]);
      intros u Hu; destruct (decide (uuid = u)) as [-> | Hne];
      rewrite ?lookup_insert_eq, ?lookup_insert_ne by assumption; eauto.
Qed.

Lemma update_pubs_and_subs_run agents w :
  exists w1 evs,
    update_pubs_and_subs agents w = (Ok tt, w1, evs) /\
    Forall (fun e => pipeline_event e = false) evs /\
    (forall u, u ∈ agents -> is_Some (_vel_pubs w1 !! u)) /\
    (forall u, is_Some (_vel_pubs w !! u) -> is_Some (_vel_pubs w1 !! u)).
Proof.
  unfold update_pubs_and_subs. revert w.
  induction agents as [| a agents IH]; intros w; simpl.
  - exists w, []. repeat split; auto. intros u Hu. inversion Hu.
  - destruct (ensure_channels_run a w) as (w1 & e1 & H1 & Hev1 & Ha & Hk1).
    destruct (IH w1) as (w2 & e2 & H2 & Hev2 & Hin & Hk2).
    exists w2, (e1 ++ e2). split; [| split; [| split]].
    + apply (bind_Ok_intro _ _ _ _ _ _ _ _ _ H1 H2).
    + apply Forall_app; auto.
    + intros u Hu. apply elem_of_cons in Hu as [-> | Hu]; auto.
    + auto.
Qed.

(** ** The count guard of [step] (C2, C7) *)

Lemma size_list_to_set_le (l : list string) :
  (size (list_to_set l : gset string) <= length l)%nat.
Proof.
  induction l as [| a l IH].
  - rewrite list_to_set_nil, size_empty. simpl. lia.
  - rewrite list_to_set_cons, size_union_alt, size_singleton. simpl.
    assert (Hd : (size (list_to_set l ∖ {[a]} : gset string)
                  <= size (list_to_set l : gset string))%nat).
    { apply subseteq_size. intros x Hx.
      apply elem_of_difference in Hx. tauto. }
    lia.
Qed.

Lemma strict_subset_counts_differ (cs : gmap string CurrentState)
    (agents : list string) :
  dom cs ⊂ list_to_set agents -> size cs <> length agents.
Proof.
  intros Hsub. apply subset_size in Hsub. rewrite size_dom in Hsub.
  pose proof (size_list_to_set_le agents). lia.
Qed.

Lemma all_false_acc agents (d : gmap string bool) a :
  foldl (fun d agent => <[agent := false]> d) d agents !! a
  = if decide (a ∈ agents) then Some false else d !! a.
Proof.
  revert d. induction agents as [| b agents IH]; intros d; simpl.
  - destruct (decide (a ∈ [])) as [Hin | _]; [inversion Hin | reflexivity].
  - rewrite IH. destruct (decide (a ∈ agents)) as [Hin | Hnin].
    + rewrite decide_True by (right; assumption). reflexivity.
    + destruct (decide (b = a)) as [-> | Hne].
      * rewrite decide_True by left. apply lookup_insert_eq.
      * rewrite decide_False, lookup_insert_ne by
          (try assumption; intros [-> | ?]%elem_of_cons; contradiction).
        reflexivity.
Qed.

Lemma all_false_lookup agents a :
  a ∈ agents -> all_false agents !! a = Some false.
Proof.
  intros Hin. unfold all_false. rewrite all_false_acc.
  rewrite decide_True by assumption. reflexivity.
Qed.

(** The first two calls of [step], when there is a reference agent. *)
Lemma step_prologue agents w k p rest :
  start_poses w = (k, p) :: rest ->
  exists w1 evs,
    update_pubs_and_subs agents w = (Ok tt, w1, evs) /\
    Forall (fun e => pipeline_event e = false) evs /\
    (forall u, u ∈ agents -> is_Some (_vel_pubs w1 !! u)) /\
    update_current_side w1
    = (Ok tt,
       set_current_side
         (Rotation.from_euler_z
            (if Rlt_dec 0 (Point.y (position p)) then PI else 0)) w1,
       []) /\
    _current_states w1 = _current_states w /\
    goal_poses w1 = goal_poses w /\
    params w1 = params w /\
    rng_pos w1 = rng_pos w.
Proof.
  intros Hs.
  destruct (update_pubs_and_subs_run agents w) as (w1 & evs & Hrun & Hev & Hp & _).
  assert (Hw1 : w1 = (update_pubs_and_subs agents w).1.2) by (rewrite Hrun; reflexivity).
  exists w1, evs. repeat split; auto.
  - apply (update_current_side_run w1 k p rest).
    rewrite Hw1, (update_pubs_and_subs_preserves start_poses); [assumption |].
    split; reflexivity.
  - rewrite Hw1. apply (update_pubs_and_subs_preserves _current_states).
    split; reflexivity.
  - rewrite Hw1. apply (update_pubs_and_subs_preserves goal_poses).
    split; reflexivity.
  - rewrite Hw1. apply (update_pubs_and_subs_preserves params).
    split; reflexivity.
  - rewrite Hw1. apply (update_pubs_and_subs_preserves rng_pos).
    split; reflexivity.
Qed.

(** C7.  Whatever frame an earlier tick left in the node, and however the
    tick ends, after [step] the frame is the half turn about the vertical
    axis when the first start pose has y > 0 and the identity otherwise.
    Under the half turn the world position (1, 1) is (-1, -1) in the
    canonical frame, and that maps back to (1, 1). *)
Theorem step_recomputes_side
    (model : list (list R) -> list (list R) -> R -> result (list (list R)))
    (randn : nat -> R) (agents : list string) (w : Node)
    (k : string) (p : Pose) (rest : list (string * Pose)) :
  start_poses w = (k, p) :: rest ->
  _current_side (step model randn agents w).1.2
  = Rotation.from_euler_z (if Rlt_dec 0 (Point.y (position p)) then PI else 0)
  /\ Rotation.apply (Rotation.from_euler_z PI) [1; 1; 0] = Ok [-1; -1; 0]
  /\ Rotation.apply (Rotation.from_euler_z PI) [-1; -1; 0] = Ok [1; 1; 0].
Proof.
  intros Hs. split; [| split].
  - destruct (step_prologue agents w k p rest Hs)
      as (w1 & evs & Hrun & _ & _ & Hside & _).
    unfold step.
    match goal with
    | |- context [bind update_current_side ?k] =>
        assert (HK : forall u, preserves _current_side (k u))
    end.
    { intros _. apply preserves_bind; [apply preserves_get | intros w2].
      destruct (negb _); [apply preserves_ret |].
      apply preserves_bind; [apply preserves_lift | intros obs].
      apply preserves_bind; [apply preserves_lift | intros tensors].
      apply preserves_bind;
        [apply run_model_preserves; intros ? ?; reflexivity | intros actions].
      apply preserves_bind;
        [apply preserves_for_each; intros ?; apply publish_command_preserves
        | intros _].
      apply preserves_bind; [apply preserves_get | intros w3].
      apply preserves_lift. }
    rewrite (bind_post _ _ _ _ _ _ Hrun), (bind_post _ _ _ _ _ _ Hside).
    rewrite (HK tt). reflexivity.
  - rewrite apply_half_turn. reflexivity.
  - rewrite apply_half_turn. f_equal. f_equal; [| f_equal]; lra.
Qed.

(** C2.  When the agents with a recorded state are a strict subset of the
    requested agents, [step] returns false for every requested agent and the
    tick emits nothing but channel creations: no call of the policy, of the
    sampler or of the filter, no command, and no random draw. *)
Theorem step_under_observed
    (model : list (list R) -> list (list R) -> R -> result (list (list R)))
    (randn : nat -> R) (agents : list string) (w : Node) :
  start_poses w <> [] ->
  dom (_current_states w) ⊂ list_to_set agents ->
  exists dones w' evs,
    step model randn agents w = (Ok dones, w', evs) /\
    (forall agent, agent ∈ agents -> dones !! agent = Some false) /\
    Forall (fun e => pipeline_event e = false) evs /\
    rng_pos w' = rng_pos w.
Proof.
  intros Hs Hsub.
  destruct (start_poses w) as [| [k p] rest] eqn:Hsp; [contradiction |].
  destruct (step_prologue agents w k p rest Hsp)
    as (w1 & evs & Hrun & Hev & _ & Hside & Hcs & _ & _ & Hrng).
  apply strict_subset_counts_differ in Hsub.
  exists (all_false agents). eexists _, _. split; [| split; [| split]].
  - unfold step. eapply bind_Ok_intro; [exact Hrun |].
    eapply bind_Ok_intro; [exact Hside |].
    unfold bind, get, ret. cbn [_current_states set_current_side].
    rewrite Hcs. apply Nat.eqb_neq in Hsub. rewrite Hsub. reflexivity.
  - apply all_false_lookup.
  - rewrite !app_nil_r. exact Hev.
  - exact Hrng.
Qed.

(** ** ObservationBuilder (C5) *)

Lemma apply_canonical r x y :
  Rotation.apply r [x; y; 0] =
  Ok (canonical r x y ++ [0]).
Proof. reflexivity. Qed.

Lemma build_obs_acc w agents acc obs :
  build_obs w agents acc = Ok obs ->
  exists rows,
    Forall2 (obs_row w) (known_agents w agents) rows /\
    goal obs = goal acc ++ map (fun row => row.1.1) rows /\
    pos obs = pos acc ++ map (fun row => row.1.2) rows /\
    vel obs = vel acc ++ map (fun row => row.2) rows.
Proof.
  unfold known_agents. revert acc.
  induction agents as [| u agents IH]; intros acc Hb; cbn [build_obs] in Hb.
  - injection Hb as <-. exists []. rewrite !app_nil_r. repeat split; constructor.
  - rewrite filter_cons.
    destruct (_current_states w !! u) as [cs |] eqn:Hcs.
    + destruct (decide (is_Some (Some cs))) as [_ | Hn];
        [| exfalso; apply Hn; eauto].
      destruct (goal_poses w !! u) as [gp |] eqn:Hgp; [| discriminate].
      cbn [rbind] in Hb. rewrite !apply_canonical in Hb. cbn [rbind] in Hb.
      rewrite !take_app_length' in Hb by reflexivity.
      apply IH in Hb as (rows & Hrows & Hg & Hp & Hv). cbn [goal pos vel] in *.
      eexists (_ :: rows). split; [| split; [| split]].
      * constructor; [exists cs, gp; eauto | exact Hrows].
      * rewrite Hg, <- app_assoc. reflexivity.
      * rewrite Hp, <- app_assoc. reflexivity.
      * rewrite Hv, <- app_assoc. reflexivity.
    + destruct (decide (is_Some (@None CurrentState))) as [[? Hn] | _];
        [discriminate |].
      apply IH in Hb. exact Hb.
Qed.

Lemma build_obs_total w agents acc :
  (forall u, u ∈ agents -> is_Some (_current_states w !! u) ->
             is_Some (goal_poses w !! u)) ->
  exists obs, build_obs w agents acc = Ok obs.
Proof.
  revert acc. induction agents as [| u agents IH]; intros acc Hg; cbn [build_obs].
  - eauto.
  - destruct (_current_states w !! u) as [cs |] eqn:Hcs.
    + destruct (Hg u) as [gp Hgp]; [left | eauto |].
      rewrite Hgp. cbn [rbind]. rewrite !apply_canonical. cbn [rbind].
      apply IH. intros u' Hu'. apply Hg. right. assumption.
    + apply IH. intros u' Hu'. apply Hg. right. assumption.
Qed.

Lemma build_obs_rows w agents obs :
  build_obs w agents {| goal := []; pos := []; vel := [] |} = Ok obs ->
  length (pos obs) = length (known_agents w agents) /\
  length (vel obs) = length (known_agents w agents) /\
  length (goal obs) = length (known_agents w agents) /\
  (forall i u, known_agents w agents !! i = Some u ->
     exists cs gp,
       _current_states w !! u = Some cs /\
       goal_poses w !! u = Some gp /\
       goal obs !! i = Some (canonical (_current_side w)
                               (Point.x (position gp))
                               (Point.y (position gp))) /\
       pos obs !! i = Some (canonical (_current_side w)
                              (state_vector cs 0%nat)
                              (state_vector cs 1%nat)) /\
       vel obs !! i = Some (canonical (_current_side w)
                              (state_vector cs 3%nat)
                              (state_vector cs 4%nat))).
Proof.
  intros Hb.
  apply build_obs_acc in Hb as (rows & Hrows & Hgo & Hpo & Hve).
  cbn [goal pos vel app] in *.
  pose proof (Forall2_length _ _ _ Hrows) as Hlen.
  rewrite Hgo, Hpo, Hve, !length_map.
  repeat split; auto.
  intros i u Hi.
  destruct (Forall2_lookup_l _ _ _ _ _ Hrows Hi) as (row & Hrow & Hr).
  destruct Hr as (cs & gp & Hcs & Hgp & ->).
  exists cs, gp. rewrite !list_lookup_fmap, Hrow. cbn.
  repeat split; auto.
Qed.

(** C5.  When every controllable agent with a recorded state has a goal,
    the observation loop of [step] returns three sequences of one length,
    the number of controllable agents with a recorded state, which is at
    most the number of controllable agents; at each index the three entries
    are the goal, position and velocity of one and the same agent, the one
    at that index among the controllable agents with a recorded state, so an
    agent without a recorded state has no entry in any of the three. *)
Theorem build_obs_aligned (w : Node) (agents : list string) :
  (forall u, u ∈ agents -> is_Some (_current_states w !! u) ->
             is_Some (goal_poses w !! u)) ->
  exists obs,
    build_obs w agents {| goal := []; pos := []; vel := [] |} = Ok obs /\
    length (pos obs) = length (known_agents w agents) /\
    length (vel obs) = length (known_agents w agents) /\
    length (goal obs) = length (known_agents w agents) /\
    (length (known_agents w agents) <= length agents)%nat /\
    (forall i u, known_agents w agents !! i = Some u ->
       exists cs gp,
         u ∈ agents /\
         _current_states w !! u = Some cs /\
         goal_poses w !! u = Some gp /\
         goal obs !! i = Some (canonical (_current_side w)
                                 (Point.x (position gp))
                                 (Point.y (position gp))) /\
         pos obs !! i = Some (canonical (_current_side w)
                                (state_vector cs 0%nat)
                                (state_vector cs 1%nat)) /\
         vel obs !! i = Some (canonical (_current_side w)
                                (state_vector cs 3%nat)
                                (state_vector cs 4%nat))).
Proof.
  intros Hg.
  destruct (build_obs_total w agents {| goal := []; pos := []; vel := [] |} Hg)
    as [obs Hb].
  exists obs. split; [exact Hb |].
  destruct (build_obs_rows w agents obs Hb) as (Hp & Hv & Hgo & Hrows).
  repeat split; auto.
  - apply length_filter.
  - intros i u Hi.
    destruct (Hrows i u Hi) as (cs & gp & Hcs & Hgp & H1 & H2 & H3).
    exists cs, gp. repeat split; auto.
    apply list_elem_of_lookup_2 in Hi.
    apply list_elem_of_filter in Hi. tauto.
Qed.

(** ** PolicyAdapter (C8) *)

Lemma broadcast_same_length {A B C} (op : A -> B -> C) a b :
  length a = length b -> broadcast op a b = Ok (zip_with op a b).
Proof.
  intros Hlen. unfold broadcast.
  destruct a as [| x [| x' a]], b as [| y [| y' b]]; try discriminate;
    try reflexivity.
  rewrite Hlen, Nat.eqb_refl. reflexivity.
Qed.

Lemma torch_broadcast_same_length {A B C} (op : A -> B -> C) a b :
  length a = length b -> torch_broadcast op a b = Ok (zip_with op a b).
Proof.
  intros Hlen. unfold torch_broadcast.
  rewrite broadcast_same_length by assumption. reflexivity.
Qed.

Lemma zip_rows_planar op (a b : list (list R)) :
  length a = length b ->
  Forall (fun r => length r = 2%nat) a ->
  Forall (fun r => length r = 2%nat) b ->
  zip_rows op a b = Ok (zip_with (zip_with op) a b).
Proof.
  revert b. induction a as [| r1 a IH]; intros [| r2 b] Hlen Ha Hb;
    try discriminate; [reflexivity |].
  inversion Ha as [| ? ? Hr1 Ha']; inversion Hb as [| ? ? Hr2 Hb']; subst.
  cbn [zip_rows].
  rewrite torch_broadcast_same_length by congruence. cbn [rbind].
  rewrite IH by (auto; simpl in Hlen; lia). reflexivity.
Qed.

Lemma tensor_binop_planar op (a b : list (list R)) :
  length a = length b ->
  Forall (fun r => length r = 2%nat) a ->
  Forall (fun r => length r = 2%nat) b ->
  tensor_binop op a b = Ok (zip_with (zip_with op) a b).
Proof.
  intros Hlen Ha Hb.
  pose proof (zip_rows_planar op a b Hlen Ha Hb) as Hz.
  destruct a as [| r1 [| r1' a]], b as [| r2 [| r2' b]]; try discriminate;
    try reflexivity; exact Hz.
Qed.

Lemma torch_Tensor_planar (rows : list (list R)) :
  Forall (fun r => length r = 2%nat) rows -> torch_Tensor rows = Ok rows.
Proof.
  intros Hrows. destruct rows as [| r rest]; [reflexivity |].
  inversion Hrows as [| ? ? Hr Hrest]; subst. unfold torch_Tensor.
  replace (forallb (fun r' => (length r' =? length r)%nat) rest) with true;
    [reflexivity |].
  symmetry. apply forallb_forall. intros r' Hin. apply Nat.eqb_eq.
  rewrite Forall_forall in Hrest. rewrite Hr. apply Hrest.
  apply list_elem_of_In. exact Hin.
Qed.

Lemma obs_tensors_planar obs :
  Forall (fun r => length r = 2%nat) (goal obs) ->
  Forall (fun r => length r = 2%nat) (pos obs) ->
  Forall (fun r => length r = 2%nat) (vel obs) ->
  obs_tensors obs = Ok obs.
Proof.
  intros Fg Fp Fv. unfold obs_tensors.
  rewrite !torch_Tensor_planar by assumption. destruct obs. reflexivity.
Qed.

Lemma cat_rows_aligned (a b c : list (list R)) :
  length a = length b -> length c = length b ->
  cat_rows a b c = Ok (zip_with app a (zip_with app b c)).
Proof.
  revert b c. induction a as [| r1 a IH]; intros [| r2 b] [| r3 c] Hab Hcb;
    try discriminate; [reflexivity |].
  cbn [cat_rows]. rewrite IH by (simpl in *; lia). reflexivity.
Qed.

Lemma features_planar obs :
  length (goal obs) = length (pos obs) ->
  length (vel obs) = length (pos obs) ->
  Forall (fun r => length r = 2%nat) (goal obs) ->
  Forall (fun r => length r = 2%nat) (pos obs) ->
  Forall (fun r => length r = 2%nat) (vel obs) ->
  pos obs <> [] ->
  features obs
  = Ok (zip_with app (zip_with (zip_with Rminus) (goal obs) (pos obs))
          (zip_with app (pos obs)
             (zip_with (zip_with Rplus) (pos obs) (vel obs)))).
Proof.
  intros Hg Hv Fg Fp Fv Hne. unfold features.
  rewrite !tensor_binop_planar by auto. cbn [rbind]. unfold torch_cat_dim2.
  destruct (zip_with (zip_with Rminus) (goal obs) (pos obs)) eqn:Hz.
  - apply (f_equal length) in Hz. rewrite length_zip_with in Hz.
    destruct (pos obs); [contradiction | simpl in *; lia].
  - rewrite <- Hz. apply cat_rows_aligned;
      rewrite !length_zip_with; lia.
Qed.

Lemma sample_action_from_logit_silent randn logit w :
  (sample_action_from_logit randn logit w).2 = [].
Proof.
  unfold sample_action_from_logit, bind, get, lift, modify, ret.
  destruct (chunk2 logit) as [[mean log_std] | e]; [| reflexivity].
  cbn [fst snd].
  destruct (torch_broadcast pair mean (map exp log_std)); reflexivity.
Qed.

Lemma sample_actions_events randn logits w :
  Forall (fun e => exists logit, e = call_sample_action_from_logit logit)
    (sample_actions randn logits w).2.
Proof.
  revert w. induction logits as [| l ls IH]; intros w; cbn [sample_actions].
  - constructor.
  - unfold bind at 1. cbn [tell]. unfold bind at 1.
    pose proof (sample_action_from_logit_silent randn l w) as Hs.
    destruct (sample_action_from_logit randn l w) as [[[a | e] w1] t1];
      cbn [snd] in Hs; subst t1.
    + unfold bind at 1. specialize (IH w1).
      destruct (sample_actions randn ls w1) as [[[acts | e] w2] t2];
        cbn in *; rewrite ?app_nil_r; constructor; eauto.
    + cbn. constructor; eauto.
Qed.

(** C8, as amended.  For an observation of at least one agent whose three
    sequences have one length and hold planar vectors, [run_model] applies
    the policy exactly once, to the positions, a feature tensor of one row
    per agent and the communication range parameter; the row of agent i is
    (goal - pos, pos, pos + vel), six numbers.  The call is the first event
    of the trace, and what the policy returns on these arguments is what
    [run_model] goes on with: its logits are sampled, its exception is
    raised. *)
Theorem run_model_features
    (model : list (list R) -> list (list R) -> R -> result (list (list R)))
    (randn : nat -> R) (obs : Obs) (w : Node) :
  length (goal obs) = length (pos obs) ->
  length (vel obs) = length (pos obs) ->
  Forall (fun r => length r = 2%nat) (goal obs) ->
  Forall (fun r => length r = 2%nat) (pos obs) ->
  Forall (fun r => length r = 2%nat) (vel obs) ->
  pos obs <> [] ->
  exists x r w' evs,
    run_model model randn obs w
    = (r, w', call_model (pos obs) x (comm_range (params w)) :: evs) /\
    match model (pos obs) x (comm_range (params w)) with
    | Ok logits => sample_actions randn logits w = (r, w', evs)
    | Raise e => (r, w', evs) = (Raise e, w, [])
    end /\
    Forall (fun e => forall p' x' c', e <> call_model p' x' c') evs /\
    length x = length (pos obs) /\
    (forall i gx gy px py vx vy,
       goal obs !! i = Some [gx; gy] ->
       pos obs !! i = Some [px; py] ->
       vel obs !! i = Some [vx; vy] ->
       x !! i = Some [gx - px; gy - py; px; py; px + vx; py + vy]).
Proof.
  intros Hg Hv Fg Fp Fv Hne.
  pose proof (features_planar obs Hg Hv Fg Fp Fv Hne) as Hf.
  match type of Hf with _ = Ok ?X => set (x := X) in * end.
  assert (Hlen : length x = length (pos obs)).
  { unfold x. rewrite !length_zip_with. lia. }
  assert (Hrow : forall i gx gy px py vx vy,
            goal obs !! i = Some [gx; gy] ->
            pos obs !! i = Some [px; py] ->
            vel obs !! i = Some [vx; vy] ->
            x !! i = Some [gx - px; gy - py; px; py; px + vx; py + vy]).
  { intros i gx gy px py vx vy Hgi Hpi Hvi. unfold x.
    rewrite !lookup_zip_with, Hgi, Hpi, Hvi. reflexivity. }
  exists x. unfold run_model, bind, get, lift, tell. rewrite Hf.
  destruct (model (pos obs) x (comm_range (params w))) as [logits | e].
  - pose proof (sample_actions_events randn logits w) as Hev.
    destruct (sample_actions randn logits w) as [[r w'] t]. cbn in Hev |- *.
    exists r, w', t. repeat split; auto.
    eapply Forall_impl; [exact Hev |]. intros e [l ->]. discriminate.
  - cbn. exists (Raise e), w, []. repeat split; auto.
Qed.

(** C8 as stated fails at the observation of no agent, which [step] builds
    when it passes the guard with no requested agent observed: [run_model]
    raises IndexError while it concatenates the features and the policy,
    here one that would raise ModelError, is never applied. *)
Lemma run_model_empty_observation :
  run_model failing_policy no_noise empty_obs demo_node
  = (Raise IndexError, demo_node, []) /\
  ~ hands_features_to_policy failing_policy no_noise empty_obs demo_node.
Proof.
  split; [reflexivity |].
  intros (x & r & w' & evs & Hrun & _). discriminate Hrun.
Qed.

(** ** ActionSampler (C9) *)

Lemma chunk2_halves (mean log_std : list R) :
  length mean = length log_std ->
  chunk2 (mean ++ log_std) = Ok (mean, log_std).
Proof.
  intros Hlen. unfold chunk2. rewrite length_app, <- Hlen.
  destruct (length mean + length mean =? 1)%nat eqn:E.
  - apply Nat.eqb_eq in E. lia.
  - replace ((length mean + length mean + 1) / 2)%nat with (length mean).
    + rewrite take_app_length, drop_app_length. reflexivity.
    + apply Nat.div_unique with (r := 1%nat); lia.
Qed.



Lemma sample_action_from_logit_eq
    (randn : nat -> R) (mean log_std : list R) (w : Node) :
  length mean = length log_std ->
  sample_action_from_logit randn (mean ++ log_std) w
  = (Ok (np_clip
           (normal_sample randn (zip_with pair mean (map exp log_std))
              (rng_pos w))
           (- max_v (params w)) (max_v (params w))),
     set_rng_pos (rng_pos w + length mean) w, []).
Proof.
  intros Hlen.
  unfold sample_action_from_logit, bind, get, lift, modify, ret.
  rewrite chunk2_halves by assumption. cbn [fst snd].
  rewrite torch_broadcast_same_length by (rewrite length_map; assumption).
  cbn. rewrite length_zip_with, length_map, <- Hlen, Nat.min_id.
  reflexivity.
Qed.


(** ** The action phase of a tick *)

Lemma post_preserved {A X} (f : Node -> X) (m : M A) w r w' t :
  preserves f m -> m w = (r, w', t) -> f w' = f w.
Proof. intros Hp Hm. specialize (Hp w). rewrite Hm in Hp. exact Hp. Qed.

Lemma sample_actions_run randn logits w :
  Forall (fun logit => length logit = 4%nat) logits ->
  exists actions w',
    sample_actions randn logits w
    = (Ok actions, w', map call_sample_action_from_logit logits) /\
    length actions = length logits /\
    Forall (fun action => length action = 2%nat) actions.
Proof.
  revert w. induction logits as [| l ls IH]; intros w Hl.
  - exists [], w. repeat split; constructor.
  - inversion Hl as [| ? ? Hlen Hls]; subst.
    destruct l as [| m1 [| m2 [| s1 [| s2 [| ? ?]]]]]; try discriminate.
    pose proof (sample_action_from_logit_eq randn [m1; m2] [s1; s2] w eq_refl)
      as Hs.
    cbn [app length] in Hs.
    destruct (IH (set_rng_pos (rng_pos w + 2) w) Hls)
      as (actions & w' & Hrun & Hlen' & Hact).
    eexists (_ :: actions), w'. split; [| split].
    + cbn [sample_actions]. unfold bind at 1. cbn [tell].
      unfold bind at 1. rewrite Hs. unfold bind at 1.
      rewrite Hrun. unfold ret. cbn [app map]. rewrite app_nil_r.
      reflexivity.
    + simpl. rewrite Hlen'. reflexivity.
    + constructor; [reflexivity | exact Hact].
Qed.

Lemma publish_command_run w uuid a1 a2 v1 v2 :
  is_Some (_vel_pubs w !! uuid) ->
  exists msg,
    publish_command (uuid, [a1; a2], [v1; v2]) w
    = (Ok tt, w,
       [call_action_constrain_vel_acc [a1; a2] [v1; v2]; publish uuid msg]).
Proof.
  intros [t Ht]. unfold publish_command, bind at 1, get. rewrite Ht.
  unfold bind at 1. cbn [tell]. unfold bind at 1. unfold lift at 1.
  rewrite action_constrain_vel_acc_planar.
  eexists. reflexivity.
Qed.

Lemma publish_loop_run w (items : list (string * list R * list R)) :
  Forall (fun item =>
            is_Some (_vel_pubs w !! item.1.1) /\
            length item.1.2 = 2%nat /\ length item.2 = 2%nat) items ->
  exists evs,
    for_each publish_command items w = (Ok tt, w, evs) /\
    published evs = map (fun item => item.1.1) items.
Proof.
  induction items as [| [[u a] v] items IH]; intros Hit.
  - exists []. split; reflexivity.
  - inversion Hit as [| ? ? (Hp & Ha & Hv) Hit']; subst. cbn in Hp, Ha, Hv.
    destruct a as [| a1 [| a2 [| ? ?]]]; try discriminate.
    destruct v as [| v1 [| v2 [| ? ?]]]; try discriminate.
    destruct (publish_command_run w u a1 a2 v1 v2 Hp) as [msg Hrun].
    destruct (IH Hit') as (evs & Hloop & Hpub).
    eexists. split.
    + cbn [for_each]. eapply bind_Ok_intro; [exact Hrun | exact Hloop].
    + cbn. rewrite <- Hpub. reflexivity.
Qed.

(** ** Goal test (C3) *)

Lemma done_distance r px py gx gy :
  Rotation.angle r = 0 \/ Rotation.angle r = PI ->
  exists d,
    np_sub (canonical r px py) (canonical r gx gy) = Ok d /\
    norm d = distance px py gx gy.
Proof.
  intros Ha. unfold canonical.
  exists [cos (Rotation.angle r) * px - sin (Rotation.angle r) * py
          - (cos (Rotation.angle r) * gx - sin (Rotation.angle r) * gy);
          sin (Rotation.angle r) * px + cos (Rotation.angle r) * py
          - (sin (Rotation.angle r) * gx + cos (Rotation.angle r) * gy)].
  split; [reflexivity |].
  unfold norm, distance. cbn [fold_right]. f_equal.
  destruct Ha as [-> | ->].
  - rewrite cos_0, sin_0. ring.
  - rewrite cos_PI, sin_PI. ring.
Qed.

Lemma filter_all {A} (P : A -> Prop) `{forall x, Decision (P x)} (l : list A) :
  length (filter P l) = length l -> filter P l = l.
Proof.
  induction l as [| x l IH]; [reflexivity |].
  rewrite filter_cons. destruct (decide (P x)); simpl; intros Hlen.
  - f_equal. apply IH. lia.
  - pose proof (length_filter P l). lia.
Qed.

Lemma compute_dones_lookup P agents obs (F : string -> bool) :
  forall i dones result,
    compute_dones P agents obs i dones = Ok result ->
    (forall j agent p g d,
        agents !! j = Some agent ->
        pos obs !! (i + j)%nat = Some p ->
        goal obs !! (i + j)%nat = Some g ->
        np_sub p g = Ok d ->
        bool_decide (norm d < goal_reached_dist P) = F agent) ->
    forall agent,
      result !! agent
      = if decide (agent ∈ agents) then Some (F agent) else dones !! agent.
Proof.
  induction agents as [| a agents IH]; intros i dones result Hc HF agent.
  - injection Hc as <-.
    destruct (decide (agent ∈ [])) as [Hin | _]; [inversion Hin | reflexivity].
  - cbn [compute_dones] in Hc. unfold index in Hc.
    destruct (pos obs !! i) as [p |] eqn:Hp; [| discriminate].
    destruct (goal obs !! i) as [g |] eqn:Hg; [| discriminate].
    cbn [rbind] in Hc.
    destruct (np_sub p g) as [d | e] eqn:Hd; [| discriminate].
    cbn [rbind] in Hc.
    assert (Ha : bool_decide (norm d < goal_reached_dist P) = F a).
    { apply (HF 0%nat a p g d); rewrite ?Nat.add_0_r; auto. }
    rewrite Ha in Hc.
    rewrite (IH _ _ _ Hc).
    + destruct (decide (agent ∈ agents)) as [Hin | Hnin].
      * rewrite decide_True by (right; assumption). reflexivity.
      * destruct (decide (a = agent)) as [-> | Hne].
        -- rewrite decide_True by left. apply lookup_insert_eq.
        -- rewrite decide_False, lookup_insert_ne by
             (try assumption; intros [-> | ?]%elem_of_cons; contradiction).
           reflexivity.
    + intros j agent' p' g' d' Hj Hp' Hg' Hd'.
      apply (HF (S j) agent' p' g' d'); auto;
        replace (i + S j)%nat with (S i + j)%nat by lia; assumption.
Qed.

Lemma compute_dones_Ok_rows P agents obs :
  forall i dones result,
    compute_dones P agents obs i dones = Ok result ->
    forall j, (j < length agents)%nat -> (i + j < length (pos obs))%nat.
Proof.
  induction agents as [| a agents IH]; intros i dones result Hc j Hj.
  - simpl in Hj. lia.
  - cbn [compute_dones] in Hc. unfold index in Hc.
    destruct (pos obs !! i) as [p |] eqn:Hp; [| discriminate].
    destruct (goal obs !! i) as [g |]; [| discriminate].
    cbn [rbind] in Hc.
    destruct (np_sub p g) as [d | e]; [| discriminate].
    cbn [rbind] in Hc.
    destruct j as [| j].
    + apply lookup_lt_Some in Hp. lia.
    + simpl in Hj. specialize (IH _ _ _ Hc j). lia.
Qed.

Lemma compute_dones_total P agents obs :
  forall i dones,
    (forall j, (j < length agents)%nat ->
       exists p1 p2 g1 g2,
         pos obs !! (i + j)%nat = Some [p1; p2] /\
         goal obs !! (i + j)%nat = Some [g1; g2]) ->
    exists result, compute_dones P agents obs i dones = Ok result.
Proof.
  induction agents as [| a agents IH]; intros i dones Hrows.
  - eexists. reflexivity.
  - destruct (Hrows 0%nat) as (p1 & p2 & g1 & g2 & Hp & Hg); [simpl; lia |].
    rewrite Nat.add_0_r in Hp, Hg.
    cbn [compute_dones]. unfold index. rewrite Hp, Hg. cbn [rbind].
    change (np_sub [p1; p2] [g1; g2]) with (Ok [p1 - g1; p2 - g2]).
    cbn [rbind]. apply IH. intros j Hj.
    replace (S i + j)%nat with (i + S j)%nat by lia.
    apply Hrows. simpl. lia.
Qed.

Lemma compute_dones_short P agents obs :
  forall i dones,
    (length (pos obs) < i + length agents)%nat ->
    (i <= length (pos obs))%nat ->
    (forall k, (k < length (pos obs))%nat ->
       exists p1 p2 g1 g2,
         pos obs !! k = Some [p1; p2] /\ goal obs !! k = Some [g1; g2]) ->
    compute_dones P agents obs i dones = Raise IndexError.
Proof.
  induction agents as [| a agents IH]; intros i dones Hshort Hi Hrows.
  - simpl in Hshort. lia.
  - cbn [compute_dones]. unfold index.
    destruct (decide (i < length (pos obs))%nat) as [Hlt | Hge].
    + destruct (Hrows i Hlt) as (p1 & p2 & g1 & g2 & Hp & Hg).
      rewrite Hp, Hg. cbn [rbind].
      change (np_sub [p1; p2] [g1; g2]) with (Ok [p1 - g1; p2 - g2]).
      cbn [rbind]. apply IH; auto; simpl in Hshort; lia.
    + rewrite (lookup_ge_None_2 (pos obs) i) by lia. reflexivity.
Qed.

(** ** A tick that passes the count guard *)

Lemma channels_frame :
  ignores_channels _current_states /\ ignores_channels goal_poses /\
  ignores_channels params /\ ignores_channels start_poses /\
  ignores_channels rng_pos.
Proof. repeat split. Qed.

Lemma rng_frame :
  ignores_rng params /\ ignores_rng _vel_pubs /\ ignores_rng _current_side.
Proof. repeat split. Qed.

Lemma get_Ok_inv w a w1 t :
  get w = (Ok a, w1, t) -> a = w /\ w1 = w /\ t = [].
Proof. unfold get. intros [= -> <- <-]. auto. Qed.

(** [step] on a tick that passes the guard: the prologue, the observation
    loop, then the action phase. *)
Lemma step_passes_guard model randn agents w w1 evs1 r obs :
  update_pubs_and_subs agents w = (Ok tt, w1, evs1) ->
  update_current_side w1 = (Ok tt, set_current_side r w1, []) ->
  size (_current_states w1) = length agents ->
  build_obs (set_current_side r w1) agents
    {| goal := []; pos := []; vel := [] |} = Ok obs ->
  step model randn agents w
  = (let '(res, w', t) :=
       action_phase model randn agents obs (set_current_side r w1) in
     (res, w', evs1 ++ t)).
Proof.
  intros Hrun Hside Hsize Hobs. unfold step.
  unfold bind at 1. rewrite Hrun. unfold bind at 1. rewrite Hside.
  unfold bind at 1. unfold get at 1.
  cbn [_current_states set_current_side].
  rewrite Hsize, Nat.eqb_refl. cbn [negb].
  change (_current_states w1)
    with (_current_states (set_current_side r w1)) in Hobs.
  unfold bind at 1. unfold lift at 1.
  unfold set_current_side in Hobs |- *. rewrite Hobs.
  fold (action_phase model randn agents obs).
  destruct (action_phase model randn agents obs _) as [[res w'] t].
  reflexivity.
Qed.

Lemma step_Ok_inv model randn agents w dones w' evs :
  size (_current_states w) = length agents ->
  step model randn agents w = (Ok dones, w', evs) ->
  exists w1 a obs,
    (a = 0 \/ a = PI) /\
    _current_states w1 = _current_states w /\
    goal_poses w1 = goal_poses w /\
    build_obs (set_current_side (Rotation.from_euler_z a) w1) agents
      {| goal := []; pos := []; vel := [] |} = Ok obs /\
    compute_dones (params w) agents obs 0 ∅ = Ok dones.
Proof.
  intros Hsize Hstep. unfold step in Hstep.
  apply bind_Ok_inv in Hstep as ([] & w1 & t1 & t1' & Hrun & Hstep & _).
  apply bind_Ok_inv in Hstep as ([] & w2 & t2 & t2' & Hside & Hstep & _).
  apply update_current_side_Ok_inv in Hside as (a & Ha & -> & _).
  apply bind_Ok_inv in Hstep as (w2 & w2' & t3 & t3' & Hget & Hstep & _).
  apply get_Ok_inv in Hget as (-> & -> & _).
  assert (Hcs : _current_states w1 = _current_states w).
  { apply (post_preserved _current_states _ _ _ _ _
             (update_pubs_and_subs_preserves _ agents (proj1 channels_frame)) Hrun). }
  assert (Hgp : goal_poses w1 = goal_poses w).
  { apply (post_preserved goal_poses _ _ _ _ _
             (update_pubs_and_subs_preserves _ agents (proj1 (proj2 channels_frame))) Hrun). }
  assert (Hpa : params w1 = params w).
  { apply (post_preserved params _ _ _ _ _
             (update_pubs_and_subs_preserves _ agents (proj1 (proj2 (proj2 channels_frame)))) Hrun). }
  cbn [_current_states set_current_side] in Hstep.
  rewrite Hcs, Hsize, Nat.eqb_refl in Hstep. cbn [negb] in Hstep.
  apply bind_Ok_inv in Hstep as (obs & w3 & t4 & t4' & Hobs & Hstep & _).
  apply lift_Ok_inv in Hobs as (Hobs & -> & _).
  apply bind_Ok_inv in Hstep as (tensors & w3 & t4b & t4b' & Hten & Hstep & _).
  apply lift_Ok_inv in Hten as (_ & -> & _).
  apply bind_Ok_inv in Hstep as (actions & w4 & t5 & t5' & Hmod & Hstep & _).
  apply bind_Ok_inv in Hstep as ([] & w5 & t6 & t6' & Hpub & Hstep & _).
  apply bind_Ok_inv in Hstep as (w6 & w6' & t7 & t7' & Hget & Hstep & _).
  apply get_Ok_inv in Hget as (-> & -> & _).
  apply lift_Ok_inv in Hstep as (Hdone & _ & _).
  assert (Hp5 : params w5 = params w).
  { rewrite (post_preserved params _ _ _ _ _
               (preserves_for_each params publish_command _
                  (publish_command_preserves params)) Hpub).
    rewrite (post_preserved params _ _ _ _ _
               (run_model_preserves params model randn tensors
                  (proj1 rng_frame)) Hmod).
    exact Hpa. }
  rewrite Hp5 in Hdone.
  exists w1, a, obs. repeat split; auto.
Qed.

Lemma build_obs_planar w agents obs :
  build_obs w agents {| goal := []; pos := []; vel := [] |} = Ok obs ->
  Forall (fun r => length r = 2%nat) (goal obs) /\
  Forall (fun r => length r = 2%nat) (pos obs) /\
  Forall (fun r => length r = 2%nat) (vel obs).
Proof.
  intros Hb.
  apply build_obs_acc in Hb as (rows & Hrows & Hgo & Hpo & Hve).
  cbn [goal pos vel app] in *. rewrite Hgo, Hpo, Hve.
  assert (Hall : Forall (fun row : list R * list R * list R =>
                           length row.1.1 = 2%nat /\
                           length row.1.2 = 2%nat /\
                           length row.2 = 2%nat) rows).
  { clear -Hrows. induction Hrows as [| u row us rows Hr _ IH];
      constructor; [| exact IH].
    destruct Hr as (cs & gp & _ & _ & ->). repeat split. }
  repeat split; apply Forall_map; eapply Forall_impl; try exact Hall;
    cbn; tauto.
Qed.

Lemma zip_fst_take {A B} (l : list A) (k : list B) :
  (zip l k).*1 = take (length k) l.
Proof.
  revert k. induction l as [| a l IH]; intros [| b k]; simpl;
    try reflexivity.
  - rewrite IH. reflexivity.
Qed.

Lemma action_phase_calls_model model randn agents obs x w :
  obs_tensors obs = Ok obs ->
  features obs = Ok x ->
  exists res w' t,
    action_phase model randn agents obs w
    = (res, w', call_model (pos obs) x (comm_range (params w)) :: t).
Proof.
  intros Ht Hf. unfold action_phase, run_model.
  unfold bind, get, lift, tell. rewrite Ht, Hf.
  destruct (model _ _ _) as [logits | e];
    [| eexists _, _, _; reflexivity].
  destruct (sample_actions randn logits w) as [[[actions | e] w3] t3];
    [| eexists _, _, _; reflexivity].
  destruct (for_each publish_command _ w3) as [[[[] | e] w4] t4];
    eexists _, _, _; reflexivity.
Qed.

Lemma action_phase_planar model randn agents obs x w :
  planar_policy model ->
  obs_tensors obs = Ok obs ->
  features obs = Ok x ->
  length (vel obs) = length (pos obs) ->
  (length (pos obs) <= length agents)%nat ->
  Forall (fun r => length r = 2%nat) (vel obs) ->
  (forall u, u ∈ agents -> is_Some (_vel_pubs w !! u)) ->
  exists w' t,
    action_phase model randn agents obs w
    = (compute_dones (params w) agents obs 0 ∅, w',
       call_model (pos obs) x (comm_range (params w)) :: t) /\
    published t = take (length (pos obs)) agents.
Proof.
  intros Hpol Ht Hf Hvel Hle Hplanar Hpubs.
  destruct (Hpol (pos obs) x (comm_range (params w)))
    as (logits & Hmodel & Hrows & Hwidth).
  destruct (sample_actions_run randn logits w Hwidth)
    as (actions & w3 & Hsample & Hlen & Hact).
  assert (Hpubs3 : _vel_pubs w3 = _vel_pubs w).
  { apply (post_preserved _vel_pubs _ _ _ _ _
             (sample_actions_preserves _ randn logits
                (proj1 (proj2 rng_frame))) Hsample). }
  assert (Hpar3 : params w3 = params w).
  { apply (post_preserved params _ _ _ _ _
             (sample_actions_preserves _ randn logits (proj1 rng_frame))
             Hsample). }
  destruct (publish_loop_run w3 (zip (zip agents actions) (vel obs)))
    as (evs & Hloop & Hpub).
  { apply Forall_forall. intros [[u a] v] Hin. cbn.
    pose proof (elem_of_zip_r _ _ _ _ Hin) as Hv.
    apply elem_of_zip_l in Hin.
    pose proof (elem_of_zip_r _ _ _ _ Hin) as Ha.
    apply elem_of_zip_l in Hin.
    rewrite Hpubs3. split; [auto | split].
    - exact (proj1 (Forall_forall _ _) Hact a Ha).
    - exact (proj1 (Forall_forall _ _) Hplanar v Hv). }
  exists w3, (map call_sample_action_from_logit logits ++ evs). split.
  - unfold action_phase, run_model.
    unfold bind at 1. unfold lift at 1. rewrite Ht.
    unfold bind at 1. unfold bind at 1. unfold get at 1.
    unfold bind at 1. unfold lift at 1. rewrite Hf.
    unfold bind at 1. cbn [tell]. unfold bind at 1. unfold lift at 1.
    rewrite Hmodel, Hsample.
    unfold bind at 1. rewrite Hloop. unfold bind, get, lift.
    rewrite Hpar3. cbn [app]. rewrite !app_nil_r. reflexivity.
  - unfold published. rewrite omap_app.
    replace (omap _ (map call_sample_action_from_logit logits))
      with (@nil string).
    + cbn [app]. fold (published evs). rewrite Hpub.
      transitivity ((zip (zip agents actions) (vel obs)).*1.*1).
      { rewrite <- list_fmap_compose. reflexivity. }
      rewrite zip_fst_take, fmap_take, zip_fst_take, take_take.
      rewrite Hlen, Hrows, Hvel, Nat.min_id. reflexivity.
    + clear. induction logits; [reflexivity | assumption].
Qed.

Lemma filter_Forall_id {A} (P : A -> Prop) `{forall x, Decision (P x)}
    (l : list A) :
  Forall P l -> filter P l = l.
Proof.
  induction 1 as [| x l Hx _ IH]; [reflexivity |].
  rewrite filter_cons_True by assumption. f_equal. exact IH.
Qed.

Lemma known_agents_frame w w' agents :
  _current_states w' = _current_states w ->
  known_agents w' agents = known_agents w agents.
Proof. intros H. unfold known_agents. rewrite H. reflexivity. Qed.

(** A tick that passes the guard with at least one observed agent reaches
    the action phase with a well-shaped observation. *)
Lemma step_tick model randn agents w k p rest :
  start_poses w = (k, p) :: rest ->
  size (_current_states w) = length agents ->
  (forall u, u ∈ agents -> is_Some (_current_states w !! u) ->
             is_Some (goal_poses w !! u)) ->
  known_agents w agents <> [] ->
  exists w1 evs1 obs x,
    Forall (fun e => pipeline_event e = false) evs1 /\
    (forall u, u ∈ agents -> is_Some (_vel_pubs w1 !! u)) /\
    _current_states w1 = _current_states w /\
    goal_poses w1 = goal_poses w /\
    params w1 = params w /\
    build_obs
      (set_current_side
         (Rotation.from_euler_z
            (if Rlt_dec 0 (Point.y (position p)) then PI else 0)) w1)
      agents {| goal := []; pos := []; vel := [] |} = Ok obs /\
    obs_tensors obs = Ok obs /\
    features obs = Ok x /\
    step model randn agents w
    = (let '(res, w', t) :=
         action_phase model randn agents obs
           (set_current_side
              (Rotation.from_euler_z
                 (if Rlt_dec 0 (Point.y (position p)) then PI else 0)) w1) in
       (res, w', evs1 ++ t)).
Proof.
  intros Hs Hsize Hgoals Hknown.
  destruct (step_prologue agents w k p rest Hs)
    as (w1 & evs1 & Hrun & Hev & Hpubs & Hside & Hcs & Hgp & Hpa & _).
  set (side := Rotation.from_euler_z
                 (if Rlt_dec 0 (Point.y (position p)) then PI else 0)) in *.
  set (w2 := set_current_side side w1).
  assert (Hcs2 : _current_states w2 = _current_states w) by exact Hcs.
  assert (Hgp2 : goal_poses w2 = goal_poses w) by exact Hgp.
  destruct (build_obs_total w2 agents {| goal := []; pos := []; vel := [] |})
    as [obs Hobs].
  { intros u Hu. rewrite Hcs2, Hgp2. apply Hgoals, Hu. }
  destruct (build_obs_rows w2 agents obs Hobs) as (Hlp & Hlv & Hlg & _).
  destruct (build_obs_planar w2 agents obs Hobs) as (Fg & Fp & Fv).
  rewrite (known_agents_frame w w2 agents Hcs2) in Hlp, Hlv, Hlg.
  assert (Hne : pos obs <> []).
  { intros Hnil. rewrite Hnil in Hlp. apply Hknown.
    destruct (known_agents w agents); [reflexivity | discriminate]. }
  exists w1, evs1, obs. eexists. repeat split; auto.
  - apply obs_tensors_planar; assumption.
  - apply features_planar; auto; congruence.
  - apply (step_passes_guard model randn agents w w1 evs1 side obs);
      auto; congruence.
Qed.

(** C3.  On a tick that passes the count guard, the flag [step] returns for
    a requested agent is the test "distance from its recorded world
    position to its world goal < goal_reached_dist", on the values of this
    tick; the node keeps no earlier flag.  Such a tick returns when there is
    a reference agent, every requested agent has a recorded state and a
    goal, and the policy keeps its contract.  An agent at (0, 0) with goal
    (0.2, 0) and goal_reached_dist = 0.25 passes the test. *)
Theorem step_done_flags
    (model : list (list R) -> list (list R) -> R -> result (list (list R)))
    (randn : nat -> R) (agents : list string) (w : Node) :
  (forall dones w' evs,
      size (_current_states w) = length agents ->
      step model randn agents w = (Ok dones, w', evs) ->
      forall agent, agent ∈ agents ->
        exists cs gp,
          _current_states w !! agent = Some cs /\
          goal_poses w !! agent = Some gp /\
          dones !! agent
          = Some (bool_decide
                    (distance (state_vector cs 0%nat) (state_vector cs 1%nat)
                       (Point.x (position gp)) (Point.y (position gp))
                     < goal_reached_dist (params w))))
  /\ (start_poses w <> [] -> agents <> [] ->
      size (_current_states w) = length agents ->
      (forall agent, agent ∈ agents ->
         is_Some (_current_states w !! agent) /\
         is_Some (goal_poses w !! agent)) ->
      planar_policy model ->
      exists dones w' evs, step model randn agents w = (Ok dones, w', evs))
  /\ bool_decide (distance 0 0 0.2 0 < 0.25) = true.
Proof.
  split; [| split].
  - intros dones w' evs Hsize Hstep.
    destruct (step_Ok_inv model randn agents w dones w' evs Hsize Hstep)
      as (w1 & a & obs & Ha & Hcs & Hgp & Hobs & Hdone).
    set (w2 := set_current_side (Rotation.from_euler_z a) w1) in *.
    destruct (build_obs_rows w2 agents obs Hobs) as (Hlp & _ & _ & Hrows).
    assert (Hall : known_agents w2 agents = agents).
    { apply filter_all. fold (known_agents w2 agents).
      pose proof (length_filter
                    (fun u => is_Some (_current_states w2 !! u)) agents) as Hle.
      fold (known_agents w2 agents) in Hle.
      destruct agents as [| a0 agents']; [reflexivity |].
      pose proof (compute_dones_Ok_rows _ _ _ _ _ _ Hdone (length agents'))
        as Hlt.
      simpl in Hlt, Hle |- *. lia. }
    rewrite Hall in Hrows.
    set (F := fun agent : string =>
                match _current_states w !! agent, goal_poses w !! agent with
                | Some cs, Some gp =>
                    bool_decide
                      (distance (state_vector cs 0%nat) (state_vector cs 1%nat)
                         (Point.x (position gp)) (Point.y (position gp))
                       < goal_reached_dist (params w))
                | _, _ => false
                end).
    assert (Hside : Rotation.angle (_current_side w2) = 0 \/
                    Rotation.angle (_current_side w2) = PI) by exact Ha.
    assert (HF : forall j agent pj gj d,
               agents !! j = Some agent ->
               pos obs !! (0 + j)%nat = Some pj ->
               goal obs !! (0 + j)%nat = Some gj ->
               np_sub pj gj = Ok d ->
               bool_decide (norm d < goal_reached_dist (params w)) = F agent).
    { intros j agent pj gj d Hj Hpj Hgj Hd. cbn [Nat.add] in Hpj, Hgj.
      destruct (Hrows j agent Hj) as (cs & gp & Hcs' & Hgp' & Hg' & Hp' & _).
      rewrite Hp' in Hpj. injection Hpj as <-.
      rewrite Hg' in Hgj. injection Hgj as <-.
      destruct (done_distance (_current_side w2)
                  (state_vector cs 0%nat) (state_vector cs 1%nat)
                  (Point.x (position gp)) (Point.y (position gp)) Hside)
        as (d' & Hd' & Hn).
      pose proof (eq_trans (eq_sym Hd) Hd') as Heq. injection Heq as ->.
      unfold F. change (_current_states w2) with (_current_states w1) in Hcs'.
      change (goal_poses w2) with (goal_poses w1) in Hgp'.
      rewrite <- Hcs, <- Hgp, Hcs', Hgp', Hn. reflexivity. }
    intros agent Hin.
    pose proof (compute_dones_lookup (params w) agents obs F 0 ∅ dones
                  Hdone HF agent) as Hlk.
    rewrite decide_True in Hlk by assumption.
    apply list_elem_of_lookup_1 in Hin as [j Hj].
    destruct (Hrows j agent Hj) as (cs & gp & Hcs' & Hgp' & _).
    change (_current_states w2) with (_current_states w1) in Hcs'.
    change (goal_poses w2) with (goal_poses w1) in Hgp'.
    rewrite Hcs in Hcs'. rewrite Hgp in Hgp'.
    exists cs, gp. repeat split; auto.
    rewrite Hlk. unfold F. rewrite Hcs', Hgp'. reflexivity.
  - intros Hne Hag Hsize Hall Hpol.
    destruct (start_poses w) as [| [k p] rest] eqn:Hs; [contradiction |].
    assert (Hknown : known_agents w agents = agents).
    { apply filter_Forall_id, Forall_forall. intros u Hu.
      apply (Hall u Hu). }
    destruct (step_tick model randn agents w k p rest Hs Hsize)
      as (w1 & evs1 & obs & x & _ & Hpubs & Hcs & Hgp & Hpa & Hobs & Ht & Hf
          & Hstep).
    { intros u Hu _. apply (Hall u Hu). }
    { rewrite Hknown. exact Hag. }
    set (w2 := set_current_side _ w1) in *.
    destruct (build_obs_rows w2 agents obs Hobs) as (Hlp & Hlv & _ & Hrows).
    destruct (build_obs_planar w2 agents obs Hobs) as (_ & _ & Fv).
    rewrite (known_agents_frame w w2 agents Hcs), Hknown in Hlp, Hlv, Hrows.
    destruct (action_phase_planar model randn agents obs x w2 Hpol Ht Hf)
      as (w' & t & Hphase & _); auto; try lia.
    destruct (compute_dones_total (params w2) agents obs 0 ∅) as [dones Hd].
    { intros j Hj. cbn [Nat.add].
      destruct (lookup_lt_is_Some_2 agents j Hj) as [u Hu].
      destruct (Hrows j u Hu) as (cs & gp & _ & _ & Hg' & Hp' & _).
      unfold canonical in Hg', Hp'. eauto 8. }
    exists dones, w', (evs1 ++ call_model (pos obs) x (comm_range (params w2)) :: t).
    rewrite Hstep, Hphase, Hd. reflexivity.
  - apply bool_decide_eq_true. unfold distance.
    replace ((0 - 0.2) * (0 - 0.2) + (0 - 0) * (0 - 0)) with (0.2 * 0.2)
      by lra.
    rewrite sqrt_square; lra.
Qed.

Lemma build_obs_none w agents acc :
  known_agents w agents = [] -> build_obs w agents acc = Ok acc.
Proof.
  unfold known_agents.
  induction agents as [| a agents IH]; intros Hk; [reflexivity |].
  rewrite filter_cons in Hk. cbn [build_obs].
  destruct (_current_states w !! a) as [cs |] eqn:Hcs.
  - destruct (decide (is_Some (Some cs))) as [_ | Hn];
      [discriminate | exfalso; apply Hn; eauto].
  - destruct (decide (is_Some (@None CurrentState))) as [[? Hn] | _];
      [discriminate | apply IH, Hk].
Qed.

Lemma published_quiet evs :
  Forall (fun e => pipeline_event e = false) evs -> published evs = [].
Proof.
  induction 1 as [| e evs He _ IH]; [reflexivity |].
  unfold published in *. cbn [omap list_omap].
  destruct e; try discriminate; exact IH.
Qed.

(** The action phase is the call of the policy on the features of the
    observation, followed by [after_policy] on the logits it returned. *)
Lemma action_phase_policy model randn agents obs x w :
  obs_tensors obs = Ok obs ->
  features obs = Ok x ->
  action_phase model randn agents obs w
  = match model (pos obs) x (comm_range (params w)) with
    | Ok logits =>
        let '(res, w', t) := after_policy randn agents obs logits w in
        (res, w', call_model (pos obs) x (comm_range (params w)) :: t)
    | Raise e =>
        (Raise e, w, [call_model (pos obs) x (comm_range (params w))])
    end.
Proof.
  intros Ht Hf. unfold action_phase, run_model, after_policy.
  unfold bind, get, lift, tell. rewrite Ht, Hf.
  destruct (model _ _ _) as [logits | e]; [| reflexivity].
  destruct (sample_actions randn logits w) as [[[actions | e] w3] t3];
    [| reflexivity].
  destruct (for_each publish_command _ w3) as [[[[] | e] w4] t4];
    reflexivity.
Qed.

(** [step_tick], told from the node the prologue of [step] leaves. *)
Lemma step_tick_from model randn agents w k p rest :
  start_poses w = (k, p) :: rest ->
  size (_current_states w) = length agents ->
  (forall u, u ∈ agents -> is_Some (_current_states w !! u) ->
             is_Some (goal_poses w !! u)) ->
  known_agents w agents <> [] ->
  exists w1 evs1 obs x,
    after_prologue agents w
    = set_current_side
        (Rotation.from_euler_z
           (if Rlt_dec 0 (Point.y (position p)) then PI else 0)) w1 /\
    Forall (fun e => pipeline_event e = false) evs1 /\
    (forall u, u ∈ agents -> is_Some (_vel_pubs w1 !! u)) /\
    _current_states w1 = _current_states w /\
    goal_poses w1 = goal_poses w /\
    params w1 = params w /\
    build_obs (after_prologue agents w) agents
      {| goal := []; pos := []; vel := [] |} = Ok obs /\
    obs_tensors obs = Ok obs /\
    features obs = Ok x /\
    step model randn agents w
    = (let '(res, w', t) :=
         action_phase model randn agents obs (after_prologue agents w) in
       (res, w', evs1 ++ t)).
Proof.
  intros Hs Hsize Hgoals Hknown.
  destruct (step_prologue agents w k p rest Hs)
    as (w1 & evs1 & Hrun & Hev & Hpubs & Hside & Hcs & Hgp & Hpa & _).
  set (side := Rotation.from_euler_z
                 (if Rlt_dec 0 (Point.y (position p)) then PI else 0)) in *.
  assert (Hap : after_prologue agents w = set_current_side side w1).
  { unfold after_prologue. rewrite Hrun. cbn [fst snd].
    rewrite Hside. reflexivity. }
  rewrite Hap.
  set (w2 := set_current_side side w1).
  assert (Hcs2 : _current_states w2 = _current_states w) by exact Hcs.
  assert (Hgp2 : goal_poses w2 = goal_poses w) by exact Hgp.
  destruct (build_obs_total w2 agents {| goal := []; pos := []; vel := [] |})
    as [obs Hobs].
  { intros u Hu. rewrite Hcs2, Hgp2. apply Hgoals, Hu. }
  destruct (build_obs_rows w2 agents obs Hobs) as (Hlp & Hlv & Hlg & _).
  destruct (build_obs_planar w2 agents obs Hobs) as (Fg & Fp & Fv).
  rewrite (known_agents_frame w w2 agents Hcs2) in Hlp, Hlv, Hlg.
  assert (Hne : pos obs <> []).
  { intros Hnil. rewrite Hnil in Hlp. apply Hknown.
    destruct (known_agents w agents); [reflexivity | discriminate]. }
  exists w1, evs1, obs. eexists. repeat split; auto.
  - apply obs_tensors_planar; assumption.
  - apply features_planar; auto; congruence.
  - apply (step_passes_guard model randn agents w w1 evs1 side obs);
      auto; congruence.
Qed.

(** C10, as amended.  The guard of [step] compares the number of recorded
    states with the number of controllable agents.  When the two numbers
    agree although the recorded ids are not the controllable ids, and at
    least one controllable agent has a recorded state, the tick is not
    short-circuited: after the channel bookkeeping the policy is applied,
    once, to the positions and features of the observation built from the
    node the prologue leaves and to the communication range; the observation
    holds the controllable agents with a recorded state and no others, in
    the caller's order.  What the policy returns on these arguments is what
    the tick goes on with: its logits are sampled, filtered and published,
    its exception ends the tick.  With a policy that keeps its contract the
    commands then go to the first agents of the full controllable list, as
    many as the observation has rows, and if some controllable agent has no
    recorded state the done loop indexes the observation past its end and
    [step] raises IndexError. *)
Theorem step_guard_compares_counts
    (model : list (list R) -> list (list R) -> R -> result (list (list R)))
    (randn : nat -> R) (agents : list string) (w : Node)
    (k : string) (p : Pose) (rest : list (string * Pose)) :
  start_poses w = (k, p) :: rest ->
  size (_current_states w) = length agents ->
  dom (_current_states w) <> list_to_set agents ->
  (forall u, u ∈ agents -> is_Some (_current_states w !! u) ->
             is_Some (goal_poses w !! u)) ->
  known_agents w agents <> [] ->
  exists obs x res w' evs1 evs2,
    step model randn agents w
    = (res, w',
       evs1 ++ call_model (pos obs) x (comm_range (params w)) :: evs2) /\
    Forall (fun e => pipeline_event e = false) evs1 /\
    build_obs (after_prologue agents w) agents
      {| goal := []; pos := []; vel := [] |} = Ok obs /\
    features obs = Ok x /\
    match model (pos obs) x (comm_range (params w)) with
    | Ok logits =>
        after_policy randn agents obs logits (after_prologue agents w)
        = (res, w', evs2)
    | Raise e => (res, w', evs2) = (Raise e, after_prologue agents w, [])
    end /\
    length (pos obs) = length (known_agents w agents) /\
    (forall i u, known_agents w agents !! i = Some u ->
       exists cs,
         _current_states w !! u = Some cs /\
         pos obs !! i
         = Some (canonical
                   (Rotation.from_euler_z
                      (if Rlt_dec 0 (Point.y (position p)) then PI else 0))
                   (state_vector cs 0%nat) (state_vector cs 1%nat))) /\
    (planar_policy model ->
       published evs2 = take (length (known_agents w agents)) agents /\
       ((exists u, u ∈ agents /\ _current_states w !! u = None) ->
        res = Raise IndexError)).
Proof.
  intros Hs Hsize _ Hgoals Hknown.
  destruct (step_tick_from model randn agents w k p rest Hs Hsize Hgoals
              Hknown)
    as (w1 & evs1 & obs & x & Hap & Hev & Hpubs & Hcs & Hgp & Hpa & Hobs
        & Ht & Hf & Hstep).
  set (side := Rotation.from_euler_z
                 (if Rlt_dec 0 (Point.y (position p)) then PI else 0)) in *.
  set (w0 := after_prologue agents w) in *.
  set (w2 := set_current_side side w1) in *.
  assert (Hpa0 : params w0 = params w) by (rewrite Hap; exact Hpa).
  assert (Hcs0 : _current_states w0 = _current_states w)
    by (rewrite Hap; exact Hcs).
  destruct (build_obs_rows w0 agents obs Hobs) as (Hlp & Hlv & _ & Hrows).
  destruct (build_obs_planar w0 agents obs Hobs) as (_ & _ & Fv).
  rewrite (known_agents_frame w w0 agents Hcs0) in Hlp, Hlv, Hrows.
  pose proof (action_phase_policy model randn agents obs x w0 Ht Hf)
    as Hpolicy.
  destruct (action_phase_calls_model model randn agents obs x w0 Ht Hf)
    as (res & w' & t & Hphase).
  assert (Hside0 : _current_side w0 = side) by (rewrite Hap; reflexivity).
  exists obs, x, res, w', evs1, t.
  split; [| split; [| split; [| split; [| split; [| split; [| split]]]]]].
  - rewrite Hstep, Hphase, Hpa0. reflexivity.
  - exact Hev.
  - exact Hobs.
  - exact Hf.
  - rewrite Hphase, Hpa0 in Hpolicy.
    destruct (model (pos obs) x (comm_range (params w))) as [logits | e].
    + destruct (after_policy randn agents obs logits w0) as [[res0 w0'] t0].
      injection Hpolicy as -> -> ->. reflexivity.
    + injection Hpolicy as -> -> ->. reflexivity.
  - exact Hlp.
  - intros i u Hi.
    destruct (Hrows i u Hi) as (cs & gp & Hcs' & _ & _ & Hp' & _).
    exists cs. split; [rewrite <- Hcs0; exact Hcs' |].
    rewrite Hside0 in Hp'. exact Hp'.
  - intros Hpol.
    pose proof (length_filter
                  (fun u => is_Some (_current_states w !! u)) agents) as Hle.
    fold (known_agents w agents) in Hle.
    destruct (action_phase_planar model randn agents obs x w0 Hpol Ht Hf)
      as (w'' & t' & Hphase' & Hpub); auto; try lia.
    { rewrite Hap. exact Hpubs. }
    rewrite Hphase in Hphase'. injection Hphase' as -> _ ->.
    split; [rewrite Hpub, Hlp; reflexivity |].
    intros (u & Hu & Hnone).
    apply compute_dones_short.
    + rewrite Hlp. cbn [Nat.add].
      apply (length_filter_lt _ agents u Hu).
      rewrite Hnone. intros [? ?]. discriminate.
    + lia.
    + intros j Hj. rewrite Hlp in Hj.
      destruct (lookup_lt_is_Some_2 _ j Hj) as [u' Hu'].
      destruct (Hrows j u' Hu') as (cs & gp & _ & _ & Hg' & Hp' & _).
      unfold canonical in Hg', Hp'. eauto 8.
Qed.

(** C10 as stated fails when the counts agree and no controllable agent has
    a recorded state: asked for the one agent "b" while the one recorded
    state is that of "a1", the tick passes the guard, builds the observation
    of no agent and raises IndexError while it concatenates the features;
    the policy, here one that would raise ModelError, is not called. *)
Lemma step_guard_no_observed_agent :
  size (_current_states demo_node) = length ["b"] /\
  dom (_current_states demo_node) <> list_to_set ["b"] /\
  (exists w' evs,
     step failing_policy no_noise ["b"] demo_node = (Raise IndexError, w', evs)) /\
  ~ tick_calls_policy failing_policy no_noise ["b"] demo_node.
Proof.
  destruct (step_prologue ["b"] demo_node "a1" (pose_at 0 1) [] eq_refl)
    as (w1 & evs1 & Hrun & Hev & _ & Hside & Hcs & _).
  match type of Hside with _ = (_, ?W, _) => set (w2 := W) in * end.
  assert (Hstep : step failing_policy no_noise ["b"] demo_node
                  = (Raise IndexError, w2, evs1)).
  { rewrite (step_passes_guard failing_policy no_noise ["b"] demo_node w1 evs1 _
               empty_obs Hrun Hside).
    - cbn. rewrite app_nil_r. reflexivity.
    - rewrite Hcs. reflexivity.
    - apply build_obs_none.
      rewrite (known_agents_frame demo_node _ ["b"]); [reflexivity | exact Hcs]. }
  split; [reflexivity |].
  split; [apply (bool_decide_unpack _); vm_compute; exact I |].
  split; [eexists _, _; exact Hstep |].
  intros (q & x & c & res & w' & e1 & e2 & Hcall).
  rewrite Hstep in Hcall. injection Hcall as _ _ Hevs.
  rewrite Hevs in Hev.
  apply Forall_app in Hev as [_ Hev].
  apply Forall_cons in Hev as [Hev _]. discriminate Hev.
Qed.

(** ** The statements at the example configurations *)

Lemma zero_policy_planar : planar_policy zero_policy.
Proof.
  intros p x c. eexists. split; [reflexivity |]. split.
  - apply length_map.
  - apply Forall_map, Forall_forall. intros; reflexivity.
Qed.

Lemma frame_roundtrip_witness :
  exists cx cy,
    Rotation.apply
      (Rotation.from_euler_z (if Rlt_dec 0 1 then PI else 0)) [1; 1; 0]
    = Ok [cx; cy; 0] /\
    Rotation.apply
      (Rotation.inv (Rotation.from_euler_z (if Rlt_dec 0 1 then PI else 0)))
      [cx; cy; 0] = Ok [1; 1; 0] /\
    Rotation.apply
      (Rotation.from_euler_z (if Rlt_dec 0 1 then PI else 0)) [cx; cy; 0]
    = Ok [1; 1; 0].
Proof.
  exact (frame_roundtrip demo_node _ [] 1 1 0
           (update_current_side_run demo_node "a1" (pose_at 0 1) [] eq_refl)).
Defined.

Lemma step_recomputes_side_witness :
  _current_side (step zero_policy no_noise ["a1"] demo_node).1.2
  = Rotation.from_euler_z (if Rlt_dec 0 1 then PI else 0).
Proof.
  exact (proj1 (step_recomputes_side zero_policy no_noise ["a1"] demo_node
                  "a1" (pose_at 0 1) [] eq_refl)).
Defined.

Lemma step_under_observed_witness :
  exists dones w' evs,
    step zero_policy no_noise ["a1"; "a2"] demo_node = (Ok dones, w', evs) /\
    (forall agent, agent ∈ ["a1"; "a2"] -> dones !! agent = Some false) /\
    Forall (fun e => pipeline_event e = false) evs /\
    rng_pos w' = rng_pos demo_node.
Proof.
  apply (step_under_observed zero_policy no_noise ["a1"; "a2"] demo_node).
  - discriminate.
  - apply (bool_decide_unpack _). vm_compute. exact I.
Defined.

Ltac agent_cases Hu :=
  repeat (apply elem_of_cons in Hu as [-> | Hu]); [.. | inversion Hu].

Lemma build_obs_aligned_witness :
  exists obs,
    build_obs demo_node ["a1"; "a2"] {| goal := []; pos := []; vel := [] |}
    = Ok obs /\
    length (pos obs) = 1%nat /\ length (vel obs) = 1%nat /\
    length (goal obs) = 1%nat.
Proof.
  destruct (build_obs_aligned demo_node ["a1"; "a2"])
    as (obs & Hobs & Hp & Hv & Hg & _).
  - intros u Hu Hs. agent_cases Hu.
    + eexists. reflexivity.
    + destruct Hs as [cs Hs]. vm_compute in Hs. discriminate.
  - exists obs. repeat split; assumption.
Defined.

Lemma run_model_features_witness :
  exists x r w' evs,
    run_model zero_policy no_noise demo_obs demo_node
    = (r, w', call_model [[0; 0]] x 2 :: evs) /\
    sample_actions no_noise [[0; 0; 0; 0]] demo_node = (r, w', evs) /\
    x !! 0%nat = Some [1 - 0; 2 - 0; 0; 0; 0 + 0.5; 0 + 0.5].
Proof.
  destruct (run_model_features zero_policy no_noise demo_obs demo_node)
    as (x & r & w' & evs & Hrun & Hpol & _ & _ & Hrow).
  - reflexivity.
  - reflexivity.
  - repeat constructor.
  - repeat constructor.
  - repeat constructor.
  - discriminate.
  - exists x, r, w', evs. split; [exact Hrun |]. split; [exact Hpol |].
    apply (Hrow 0%nat 1 2 0 0 0.5 0.5); reflexivity.
Defined.


Lemma step_done_flags_witness :
  exists dones w' evs,
    step zero_policy no_noise ["a1"] demo_node = (Ok dones, w', evs) /\
    dones !! "a1" = Some true.
Proof.
  destruct (step_done_flags zero_policy no_noise ["a1"] demo_node)
    as (Hflag & Hruns & Hnear).
  destruct Hruns as (dones & w' & evs & Hstep).
  - discriminate.
  - discriminate.
  - reflexivity.
  - intros agent Hu. agent_cases Hu. split; eexists; reflexivity.
  - exact zero_policy_planar.
  - exists dones, w', evs. split; [exact Hstep |].
    destruct (Hflag dones w' evs eq_refl Hstep "a1") as (cs & gp & Hcs & Hgp & Hd).
    + left.
    + vm_compute in Hcs. injection Hcs as <-.
      vm_compute in Hgp. injection Hgp as <-.
      rewrite Hd. f_equal. exact Hnear.
Defined.

Lemma step_guard_compares_counts_witness :
  exists obs x res w' evs1 evs2,
    step zero_policy no_noise ["a1"; "b"] crowded_node
    = (res, w', evs1 ++ call_model (pos obs) x 2 :: evs2) /\
    after_policy no_noise ["a1"; "b"] obs
      (map (fun _ => [0; 0; 0; 0]) (pos obs))
      (after_prologue ["a1"; "b"] crowded_node)
    = (res, w', evs2) /\
    length (pos obs) = 1%nat /\
    published evs2 = ["a1"] /\
    res = Raise IndexError.
Proof.
  destruct (step_guard_compares_counts zero_policy no_noise ["a1"; "b"]
              crowded_node "a1" (pose_at 0 1) [])
    as (obs & x & res & w' & evs1 & evs2 & Hstep & _ & _ & _ & Hpol & Hlen
        & _ & Hact).
  - reflexivity.
  - reflexivity.
  - apply (bool_decide_unpack _). vm_compute. exact I.
  - intros u Hu Hs. agent_cases Hu.
    + eexists. reflexivity.
    + destruct Hs as [cs Hs]. vm_compute in Hs. discriminate.
  - vm_compute. discriminate.
  - destruct (Hact zero_policy_planar) as (Hpub & Hraise).
    exists obs, x, res, w', evs1, evs2.
    split; [exact Hstep |]. split; [exact Hpol |].
    split; [exact Hlen |]. split; [exact Hpub |].
    apply Hraise. exists "b". split; [right; left | reflexivity].
Defined.

(** * Further properties of the code *)

(** ** StateRegistry: channels and reports *)

Lemma ensure_channels_maps uuid w :
  exists w1 evs,
    ensure_channels uuid w = (Ok tt, w1, evs) /\
    (forall u, _vel_pubs w1 !! u
               = channel_after reference_topic [uuid] (_vel_pubs w) u) /\
    (forall u, _state_subs w1 !! u
               = channel_after state_topic [uuid] (_state_subs w) u).
Proof.
  assert (Hins : forall (topic : string -> string) (m : gmap string string) u,
             m !! uuid = None ->
             <[uuid := topic uuid]> m !! u = channel_after topic [uuid] m u).
  { intros topic m u Hm. unfold channel_after.
    destruct (decide (uuid = u)) as [<- | Hne].
    - rewrite lookup_insert_eq, Hm, decide_True by left. reflexivity.
    - rewrite lookup_insert_ne by assumption.
      destruct (m !! u); [reflexivity |].
      rewrite decide_False; [reflexivity |].
      intros Hin. apply list_elem_of_singleton in Hin. congruence. }
  assert (Hkeep : forall (topic : string -> string) (m : gmap string string) u,
             is_Some (m !! uuid) -> m !! u = channel_after topic [uuid] m u).
  { intros topic m u [t Hm]. unfold channel_after.
    destruct (m !! u) eqn:Hu; [reflexivity |].
    rewrite decide_False; [reflexivity |].
    intros Hin. apply list_elem_of_singleton in Hin. congruence. }
  unfold ensure_channels, bind, get, tell, modify, ret.
  destruct (_vel_pubs w !! uuid) as [t |] eqn:Hp.
  - cbn [_state_subs].
    destruct (_state_subs w !! uuid) as [t' |] eqn:Hs.
    + exists w, []. split; [reflexivity |].
      split; intros u; apply Hkeep; eauto.
    + eexists _, _. split; [reflexivity |].
      cbn [_vel_pubs _state_subs set_state_subs]. split; intros u.
      * apply Hkeep; eauto.
      * apply (Hins state_topic). assumption.
  - cbn [_state_subs set_vel_pubs].
    destruct (_state_subs w !! uuid) as [t' |] eqn:Hs.
    + eexists _, _. split; [reflexivity |].
      cbn [_vel_pubs _state_subs set_vel_pubs]. split; intros u.
      * apply (Hins reference_topic). assumption.
      * apply Hkeep; eauto.
    + eexists _, _. split; [reflexivity |].
      cbn [_vel_pubs _state_subs set_vel_pubs set_state_subs].
      split; intros u.
      * apply (Hins reference_topic). assumption.
      * apply (Hins state_topic). assumption.
Qed.

Lemma channel_after_cons topic a agents (old mid : gmap string string) u
    (new : option string) :
  (forall v, mid !! v = channel_after topic [a] old v) ->
  new = channel_after topic agents mid u ->
  new = channel_after topic (a :: agents) old u.
Proof.
  intros Hmid ->. unfold channel_after at 1. rewrite Hmid.
  unfold channel_after.
  destruct (old !! u); [reflexivity |].
  destruct (decide (u ∈ [a])) as [Ha | Hna].
  - apply list_elem_of_singleton in Ha as ->.
    rewrite decide_True by left. reflexivity.
  - destruct (decide (u ∈ agents)) as [Hin | Hnin].
    + rewrite decide_True by (right; assumption). reflexivity.
    + rewrite decide_False; [reflexivity |].
      intros [-> | Hin]%elem_of_cons; [apply Hna; left | contradiction].
Qed.

Lemma update_pubs_and_subs_maps agents w :
  exists w1 evs,
    update_pubs_and_subs agents w = (Ok tt, w1, evs) /\
    (forall u, _vel_pubs w1 !! u
               = channel_after reference_topic agents (_vel_pubs w) u) /\
    (forall u, _state_subs w1 !! u
               = channel_after state_topic agents (_state_subs w) u).
Proof.
  unfold update_pubs_and_subs. revert w.
  induction agents as [| a agents IH]; intros w.
  - exists w, []. split; [reflexivity |].
    split; intros u; unfold channel_after;
      (destruct (_ !! u); [reflexivity |]);
      rewrite decide_False; try reflexivity; intros Hin; inversion Hin.
  - destruct (ensure_channels_maps a w) as (w1 & e1 & H1 & Hp1 & Hs1).
    destruct (IH w1) as (w2 & e2 & H2 & Hp2 & Hs2).
    exists w2, (e1 ++ e2). split; [| split].
    + cbn [for_each]. apply (bind_Ok_intro _ _ _ _ _ _ _ _ _ H1 H2).
    + intros u. apply (channel_after_cons _ _ _ _ _ _ _ Hp1 (Hp2 u)).
    + intros u. apply (channel_after_cons _ _ _ _ _ _ _ Hs1 (Hs2 u)).
Qed.

(** X1.  [update_pubs_and_subs] never replaces or removes a channel: an
    agent that had a publisher (a subscription) keeps the very same one, a
    listed agent that had none gets the one on its own topic
    /uuid/reference_state (/uuid/current_state), and an agent that is not
    listed and had none still has none. *)
Theorem update_pubs_and_subs_channels (agents : list string) (w : Node) :
  forall u,
    _vel_pubs (update_pubs_and_subs agents w).1.2 !! u
    = channel_after reference_topic agents (_vel_pubs w) u /\
    _state_subs (update_pubs_and_subs agents w).1.2 !! u
    = channel_after state_topic agents (_state_subs w) u.
Proof.
  intros u.
  destruct (update_pubs_and_subs_maps agents w) as (w1 & evs & Hrun & Hp & Hs).
  rewrite Hrun. cbn [fst snd]. auto.
Qed.

Lemma ensure_channels_settled uuid w :
  is_Some (_vel_pubs w !! uuid) -> is_Some (_state_subs w !! uuid) ->
  ensure_channels uuid w = (Ok tt, w, []).
Proof.
  intros [t Hp] [t' Hs]. unfold ensure_channels, bind, get, ret.
  rewrite Hp. cbn. rewrite Hs. reflexivity.
Qed.

Lemma update_pubs_and_subs_settled agents w :
  (forall u, u ∈ agents ->
     is_Some (_vel_pubs w !! u) /\ is_Some (_state_subs w !! u)) ->
  update_pubs_and_subs agents w = (Ok tt, w, []).
Proof.
  unfold update_pubs_and_subs.
  induction agents as [| a agents IH]; intros Hall; [reflexivity |].
  cbn [for_each].
  destruct (Hall a) as [Hp Hs]; [left |].
  assert (Hrest : forall u, u ∈ agents ->
            is_Some (_vel_pubs w !! u) /\ is_Some (_state_subs w !! u)).
  { intros u Hu. apply Hall. right. exact Hu. }
  rewrite (bind_Ok_intro _ _ _ _ _ _ _ _ _
             (ensure_channels_settled a w Hp Hs) (IH Hrest)).
  reflexivity.
Qed.

(** X2.  [update_pubs_and_subs] is idempotent: called again with the same
    agents on the node it has just left, it creates no publisher and no
    subscription and leaves the node as it is. *)
Theorem update_pubs_and_subs_idempotent (agents : list string) (w : Node) :
  update_pubs_and_subs agents (update_pubs_and_subs agents w).1.2
  = (Ok tt, (update_pubs_and_subs agents w).1.2, []).
Proof.
  destruct (update_pubs_and_subs_maps agents w) as (w1 & evs & Hrun & Hp & Hs).
  rewrite Hrun. cbn [fst snd].
  apply update_pubs_and_subs_settled. intros u Hu.
  rewrite Hp, Hs. unfold channel_after.
  split.
  - destruct (_vel_pubs w !! u); [eauto |].
    rewrite decide_True by assumption. eauto.
  - destruct (_state_subs w !! u); [eauto |].
    rewrite decide_True by assumption. eauto.
Qed.

Lemma update_current_side_preserves {X} (f : Node -> X) :
  (forall r w, f (set_current_side r w) = f w) ->
  preserves f update_current_side.
Proof.
  intros Hf. unfold update_current_side.
  apply preserves_bind; [apply preserves_get | intros w].
  apply preserves_bind; [apply preserves_lift | intros first].
  destruct (Rlt_dec 0 (Point.y (position first)));
    apply preserves_modify; intros ?; apply Hf.
Qed.

(** Whatever a tick does after the channel bookkeeping, it only moves the
    frame and the generator. *)
Lemma step_post {X} (f : Node -> X) model randn agents w :
  ignores_rng f ->
  (forall r w, f (set_current_side r w) = f w) ->
  f (step model randn agents w).1.2
  = f (update_pubs_and_subs agents w).1.2.
Proof.
  intros Hrng Hside.
  destruct (update_pubs_and_subs_run agents w) as (w1 & evs & Hrun & _).
  unfold step. rewrite (bind_post _ _ _ _ _ _ Hrun), Hrun. cbn [fst snd].
  match goal with
  | |- f (?k w1).1.2 = _ => assert (HK : preserves f k)
  end.
  { apply preserves_bind;
      [apply update_current_side_preserves, Hside | intros _].
    apply preserves_bind; [apply preserves_get | intros w2].
    destruct (negb _); [apply preserves_ret |].
    apply preserves_bind; [apply preserves_lift | intros obs].
    apply preserves_bind; [apply preserves_lift | intros tensors].
    apply preserves_bind;
      [apply run_model_preserves, Hrng | intros actions].
    apply preserves_bind;
      [apply preserves_for_each; intros ?; apply publish_command_preserves
      | intros _].
    apply preserves_bind; [apply preserves_get | intros w3].
    apply preserves_lift. }
  apply HK.
Qed.

(** X3.  However a tick ends (short-circuited, completed or raising), after
    [step] every requested agent has a publisher and a subscription, and the
    channel maps are the ones [update_pubs_and_subs] leaves: nothing later
    in the tick touches them. *)
Theorem step_registers_channels
    (model : list (list R) -> list (list R) -> R -> result (list (list R)))
    (randn : nat -> R) (agents : list string) (w : Node) :
  (forall u, u ∈ agents ->
     is_Some (_vel_pubs (step model randn agents w).1.2 !! u) /\
     is_Some (_state_subs (step model randn agents w).1.2 !! u)) /\
  (forall u,
     _vel_pubs (step model randn agents w).1.2 !! u
     = channel_after reference_topic agents (_vel_pubs w) u /\
     _state_subs (step model randn agents w).1.2 !! u
     = channel_after state_topic agents (_state_subs w) u).
Proof.
  assert (Hmaps : forall u,
     _vel_pubs (step model randn agents w).1.2 !! u
     = channel_after reference_topic agents (_vel_pubs w) u /\
     _state_subs (step model randn agents w).1.2 !! u
     = channel_after state_topic agents (_state_subs w) u).
  { intros u.
    rewrite (step_post _vel_pubs), (step_post _state_subs);
      try (intros ? ?; reflexivity).
    destruct (update_pubs_and_subs_maps agents w)
      as (w1 & evs & Hrun & Hp & Hs).
    rewrite Hrun. cbn [fst snd]. auto. }
  split; [| exact Hmaps].
  intros u Hu. destruct (Hmaps u) as [-> ->]. unfold channel_after.
  split.
  - destruct (_vel_pubs w !! u); [eauto |].
    rewrite decide_True by assumption. eauto.
  - destruct (_state_subs w !! u); [eauto |].
    rewrite decide_True by assumption. eauto.
Qed.

(** X4.  [step] only reads the recorded states, the goals, the start poses
    and the parameters: however the tick ends, the node holds the same ones
    afterwards. *)
Theorem step_reads_only
    (model : list (list R) -> list (list R) -> R -> result (list (list R)))
    (randn : nat -> R) (agents : list string) (w : Node) :
  _current_states (step model randn agents w).1.2 = _current_states w /\
  goal_poses (step model randn agents w).1.2 = goal_poses w /\
  start_poses (step model randn agents w).1.2 = start_poses w /\
  params (step model randn agents w).1.2 = params w.
Proof.
  repeat split.
  - rewrite (step_post _current_states) by (intros ? ?; reflexivity).
    apply (update_pubs_and_subs_preserves _current_states).
    split; reflexivity.
  - rewrite (step_post goal_poses) by (intros ? ?; reflexivity).
    apply (update_pubs_and_subs_preserves goal_poses). split; reflexivity.
  - rewrite (step_post start_poses) by (intros ? ?; reflexivity).
    apply (update_pubs_and_subs_preserves start_poses). split; reflexivity.
  - rewrite (step_post params) by (intros ? ?; reflexivity).
    apply (update_pubs_and_subs_preserves params). split; reflexivity.
Qed.

(** X5.  The subscription callback overwrites: after a report the agent's
    recorded state is the reported one, the other agents' recorded states
    are untouched, a second report for the same agent replaces the first,
    and the number of recorded states grows by one only for an agent that
    had none. *)
Theorem current_state_report_overwrites
    (uuid : string) (msg msg' : CurrentState) (w : Node) :
  _current_states (_update_current_state uuid msg w) !! uuid = Some msg /\
  (forall u, u <> uuid ->
     _current_states (_update_current_state uuid msg w) !! u
     = _current_states w !! u) /\
  _current_states
    (_update_current_state uuid msg' (_update_current_state uuid msg w))
  = _current_states (_update_current_state uuid msg' w) /\
  size (_current_states (_update_current_state uuid msg w))
  = match _current_states w !! uuid with
    | Some _ => size (_current_states w)
    | None => S (size (_current_states w))
    end.
Proof.
  unfold _update_current_state. cbn [_current_states].
  split; [apply lookup_insert_eq |].
  split; [intros u Hu; apply lookup_insert_ne; congruence |].
  split; [apply insert_insert_eq |].
  destruct (_current_states w !! uuid) as [old |] eqn:Hold.
  - rewrite <- (insert_delete_id (_current_states w) uuid old Hold) at 2.
    rewrite <- (insert_delete_eq (_current_states w)).
    rewrite !map_size_insert_None by apply lookup_delete_eq. reflexivity.
  - apply map_size_insert_None. exact Hold.
Qed.

(** ** DynamicsFilter: shapes, reachability, order and symmetry *)

Lemma clip1_mono x y lo hi : x <= y -> clip1 x lo hi <= clip1 y lo hi.
Proof. intros. case_minmax; lra. Qed.

Lemma clip1_inside x lo hi : lo <= x <= hi -> clip1 x lo hi = x.
Proof. intros. case_minmax; lra. Qed.

Lemma clip1_odd x m : 0 <= m -> clip1 (- x) (- m) m = - clip1 x (- m) m.
Proof. intros. case_minmax; lra. Qed.



(** X7.  A target the acceleration bound allows is reached in one period:
    when on each axis the clipped raw velocity is within max_a / 4 of the
    current velocity, the filter returns the clipped raw velocity itself. *)
Theorem action_constrain_vel_acc_reaches
    (P : Params) (ax ay vx vy : R) :
  0 <= max_v P ->
  Rabs (clip1 ax (- max_v P) (max_v P) - vx) <= max_a P / 4 ->
  Rabs (clip1 ay (- max_v P) (max_v P) - vy) <= max_a P / 4 ->
  action_constrain_vel_acc P [ax; ay] [vx; vy]
  = Ok [clip1 ax (- max_v P) (max_v P); clip1 ay (- max_v P) (max_v P)].
Proof.
  intros HV Hx Hy. rewrite action_constrain_vel_acc_planar.
  assert (Haxis : forall a v,
            Rabs (clip1 a (- max_v P) (max_v P) - v) <= max_a P / 4 ->
            clip1 (v + clip1 ((clip1 a (- max_v P) (max_v P) - v) / (1 / 4))
                         (- max_a P) (max_a P) * (1 / 4))
              (- max_v P) (max_v P)
            = clip1 a (- max_v P) (max_v P)).
  { intros a v Hr. apply Rabs_le_between in Hr.
    pose proof (clip1_bounds a (- max_v P) (max_v P)) as Hc.
    set (c := clip1 a (- max_v P) (max_v P)) in *.
    rewrite (clip1_inside ((c - v) / (1 / 4))) by lra.
    replace (v + (c - v) / (1 / 4) * (1 / 4)) with c by field.
    apply clip1_inside. apply Hc. lra. }
  rewrite (Haxis ax vx Hx), (Haxis ay vy Hy). reflexivity.
Qed.

Lemma action_constrain_vel_acc_reaches_witness :
  action_constrain_vel_acc default_params [0.2; 0] [0; 0]
  = Ok [clip1 0.2 (- max_v default_params) (max_v default_params);
        clip1 0 (- max_v default_params) (max_v default_params)].
Proof.
  assert (Hc : forall a, - (1.5) <= a <= 1.5 ->
             clip1 a (- max_v default_params) (max_v default_params) = a).
  { intros a Ha. apply clip1_inside. exact Ha. }
  apply action_constrain_vel_acc_reaches.
  - simpl. lra.
  - rewrite Hc by lra. simpl. apply Rabs_le. lra.
  - rewrite Hc by lra. simpl. apply Rabs_le. lra.
Defined.

(** X8.  The filter keeps the order of raw commands: with the same current
    velocity, a raw action that is no smaller on an axis never gets a smaller
    filtered command on that axis, whatever the parameters. *)
Theorem action_constrain_vel_acc_monotone
    (P : Params) (ax ay ax' ay' vx vy : R) :
  ax <= ax' -> ay <= ay' ->
  exists ox oy ox' oy',
    action_constrain_vel_acc P [ax; ay] [vx; vy] = Ok [ox; oy] /\
    action_constrain_vel_acc P [ax'; ay'] [vx; vy] = Ok [ox'; oy'] /\
    ox <= ox' /\ oy <= oy'.
Proof.
  intros Hx Hy. eexists _, _, _, _.
  split; [apply action_constrain_vel_acc_planar |].
  split; [apply action_constrain_vel_acc_planar |].
  assert (Haxis : forall a a' v, a <= a' ->
            clip1 (v + clip1 ((clip1 a (- max_v P) (max_v P) - v) / (1 / 4))
                         (- max_a P) (max_a P) * (1 / 4))
              (- max_v P) (max_v P)
            <= clip1 (v + clip1 ((clip1 a' (- max_v P) (max_v P) - v)
                                  / (1 / 4))
                           (- max_a P) (max_a P) * (1 / 4))
                 (- max_v P) (max_v P)).
  { intros a a' v Ha. apply clip1_mono.
    pose proof (clip1_mono a a' (- max_v P) (max_v P) Ha) as Hc.
    pose proof (clip1_mono
                  ((clip1 a (- max_v P) (max_v P) - v) / (1 / 4))
                  ((clip1 a' (- max_v P) (max_v P) - v) / (1 / 4))
                  (- max_a P) (max_a P)) as Hd.
    assert (Hq : (clip1 a (- max_v P) (max_v P) - v) / (1 / 4)
                 <= (clip1 a' (- max_v P) (max_v P) - v) / (1 / 4)) by lra.
    specialize (Hd Hq). lra. }
  split; apply Haxis; assumption.
Qed.

Lemma action_constrain_vel_acc_monotone_witness :
  exists ox oy ox' oy',
    action_constrain_vel_acc default_params [0; 0] [0; 0] = Ok [ox; oy] /\
    action_constrain_vel_acc default_params [1; 0] [0; 0] = Ok [ox'; oy'] /\
    ox <= ox' /\ oy <= oy'.
Proof.
  apply (action_constrain_vel_acc_monotone default_params 0 0 1 0 0 0); lra.
Defined.

(** X9.  The filter commutes with the half turn of the frame: with bounds
    that are not negative, negating both the raw action and the current
    velocity negates the filtered command. *)
Theorem action_constrain_vel_acc_odd
    (P : Params) (ax ay vx vy : R) :
  0 <= max_v P -> 0 <= max_a P ->
  exists ox oy,
    action_constrain_vel_acc P [ax; ay] [vx; vy] = Ok [ox; oy] /\
    action_constrain_vel_acc P [- ax; - ay] [- vx; - vy] = Ok [- ox; - oy].
Proof.
  intros HV HA. eexists _, _.
  split; [apply action_constrain_vel_acc_planar |].
  rewrite action_constrain_vel_acc_planar.
  assert (Haxis : forall a v,
            clip1 (- v + clip1 ((clip1 (- a) (- max_v P) (max_v P) - - v)
                                  / (1 / 4))
                           (- max_a P) (max_a P) * (1 / 4))
              (- max_v P) (max_v P)
            = - clip1 (v + clip1 ((clip1 a (- max_v P) (max_v P) - v)
                                    / (1 / 4))
                             (- max_a P) (max_a P) * (1 / 4))
                  (- max_v P) (max_v P)).
  { intros a v. rewrite (clip1_odd a) by assumption.
    replace ((- clip1 a (- max_v P) (max_v P) - - v) / (1 / 4))
      with (- ((clip1 a (- max_v P) (max_v P) - v) / (1 / 4))) by field.
    rewrite (clip1_odd _ (max_a P)) by assumption.
    set (c := clip1 ((clip1 a (- max_v P) (max_v P) - v) / (1 / 4))
                (- max_a P) (max_a P)).
    rewrite <- (clip1_odd (v + c * (1 / 4)) (max_v P)) by assumption.
    f_equal. lra. }
  rewrite (Haxis ax vx), (Haxis ay vy). reflexivity.
Qed.

Lemma action_constrain_vel_acc_odd_witness :
  exists ox oy,
    action_constrain_vel_acc default_params [10; 0] [0; 0] = Ok [ox; oy] /\
    action_constrain_vel_acc default_params [- 10; - 0] [- 0; - 0]
    = Ok [- ox; - oy].
Proof.
  apply (action_constrain_vel_acc_odd default_params 10 0 0 0); simpl; lra.
Defined.

(** ** ActionSampler: odd widths and the use of the generator *)

Lemma broadcast_mismatch {A B C} (op : A -> B -> C) a b :
  length a <> 1%nat -> length b <> 1%nat -> length a <> length b ->
  broadcast op a b = Raise ValueError.
Proof.
  intros Ha Hb Hab. unfold broadcast.
  destruct a as [| x [| x' a]], b as [| y [| y' b]];
    try (simpl in *; congruence); try reflexivity.
  simpl. destruct (length a =? length b)%nat eqn:E; [| reflexivity].
  apply Nat.eqb_eq in E. simpl in Hab. congruence.
Qed.

(** X10.  The sampler does not check that the logit row has an even width.
    A row of width one raises ValueError (the chunks cannot be unpacked into
    mean and log-std) and a row of odd width five or more raises
    RuntimeError (mean and log-std cannot be broadcast); in both cases no
    draw is taken.  A row of width three is accepted: its single log-std is
    used for both components of the mean. *)
Theorem sample_action_from_logit_odd_width
    (randn : nat -> R) (logit : list R) (m1 m2 s : R) (w : Node) :
  (length logit = 1%nat ->
   sample_action_from_logit randn logit w = (Raise ValueError, w, [])) /\
  (Nat.Odd (length logit) -> (5 <= length logit)%nat ->
   sample_action_from_logit randn logit w = (Raise RuntimeError, w, [])) /\
  sample_action_from_logit randn [m1; m2; s] w
  = (Ok [clip1 (m1 + exp s * randn (rng_pos w))
           (- max_v (params w)) (max_v (params w));
         clip1 (m2 + exp s * randn (S (rng_pos w)))
           (- max_v (params w)) (max_v (params w))],
     set_rng_pos (rng_pos w + 2) w, []).
Proof.
  split; [| split].
  - intros Hlen. unfold sample_action_from_logit, bind, get, lift, chunk2.
    rewrite Hlen. reflexivity.
  - intros [k Hk] Hge.
    unfold sample_action_from_logit, bind, get, lift, chunk2.
    destruct (length logit =? 1)%nat eqn:E;
      [apply Nat.eqb_eq in E; lia |].
    cbn [fst snd]. unfold torch_broadcast.
    rewrite broadcast_mismatch; [reflexivity | | |];
      rewrite ?length_map, ?length_take, ?length_drop, Hk;
      replace ((2 * k + 1 + 1) / 2)%nat with (S k)
        by (apply Nat.div_unique with (r := 0%nat); lia);
      lia.
  - reflexivity.
Qed.

Lemma sample_action_from_logit_odd_width_witness :
  sample_action_from_logit no_noise [0; 0; 0; 0; 0] demo_node
  = (Raise RuntimeError, demo_node, []).
Proof.
  apply (proj1 (proj2 (sample_action_from_logit_odd_width
                         no_noise [0; 0; 0; 0; 0] 0 0 0 demo_node))).
  - exists 2%nat. reflexivity.
  - simpl. lia.
Defined.

(** X11.  In [run_model] the agents are sampled in order and each takes two
    fresh draws: for rows of a two-dimensional mean and log-std, the action
    of agent i is computed from draws 2i and 2i+1 after the position the
    generator had before the loop, and the loop leaves the generator 2n
    draws further for n agents.  No draw is used for two agents. *)
Theorem sample_actions_draws
    (randn : nat -> R) (logits : list (list R)) (w : Node) :
  Forall (fun logit => length logit = 4%nat) logits ->
  exists actions w',
    sample_actions randn logits w
    = (Ok actions, w', map call_sample_action_from_logit logits) /\
    rng_pos w' = (rng_pos w + 2 * length logits)%nat /\
    (forall i m1 m2 s1 s2,
       logits !! i = Some [m1; m2; s1; s2] ->
       actions !! i
       = Some [clip1 (m1 + exp s1 * randn (rng_pos w + 2 * i)%nat)
                 (- max_v (params w)) (max_v (params w));
               clip1 (m2 + exp s2 * randn (rng_pos w + 2 * i + 1)%nat)
                 (- max_v (params w)) (max_v (params w))]).
Proof.
  revert w. induction logits as [| l ls IH]; intros w Hl.
  - exists [], w. split; [reflexivity |]. split; [simpl; lia |].
    intros i ? ? ? ? Hi. destruct i; discriminate.
  - inversion Hl as [| ? ? Hlen Hls]; subst.
    destruct l as [| m1 [| m2 [| s1 [| s2 [| ? ?]]]]]; try discriminate.
    pose proof (sample_action_from_logit_eq randn [m1; m2] [s1; s2] w eq_refl)
      as Hs.
    cbn [app length] in Hs.
    destruct (IH (set_rng_pos (rng_pos w + 2) w) Hls)
      as (actions & w' & Hrun & Hpos & Hact).
    cbn [rng_pos params set_rng_pos] in Hpos, Hact.
    eexists (_ :: actions), w'. split; [| split].
    + cbn [sample_actions]. unfold bind at 1. cbn [tell].
      unfold bind at 1. rewrite Hs. unfold bind at 1.
      rewrite Hrun. unfold ret. cbn [app map]. rewrite app_nil_r.
      reflexivity.
    + rewrite Hpos. simpl. lia.
    + intros [| i] a1 a2 b1 b2 Hi.
      * injection Hi as -> -> -> ->. cbn.
        rewrite Nat.add_0_r.
        replace (rng_pos w + 1)%nat with (S (rng_pos w)) by lia.
        reflexivity.
      * refine (eq_trans (Hact i a1 a2 b1 b2 Hi) _).
        replace (rng_pos w + 2 + 2 * i)%nat with (rng_pos w + 2 * S i)%nat
          by lia.
        reflexivity.
Qed.

Lemma sample_actions_draws_witness :
  exists actions w',
    sample_actions no_noise [[0; 0; 0; 0]; [1; 1; 0; 0]] demo_node
    = (Ok actions, w',
       map call_sample_action_from_logit [[0; 0; 0; 0]; [1; 1; 0; 0]]) /\
    rng_pos w' = 4%nat.
Proof.
  destruct (sample_actions_draws no_noise [[0; 0; 0; 0]; [1; 1; 0; 0]]
              demo_node)
    as (actions & w' & Hrun & Hpos & _).
  - repeat constructor.
  - exists actions, w'. split; [exact Hrun | exact Hpos].
Defined.

(** ** ControlStep: the ways a tick ends *)

Lemma step_obs_raises model randn agents w w1 evs1 r e :
  update_pubs_and_subs agents w = (Ok tt, w1, evs1) ->
  update_current_side w1 = (Ok tt, set_current_side r w1, []) ->
  size (_current_states w1) = length agents ->
  build_obs (set_current_side r w1) agents
    {| goal := []; pos := []; vel := [] |} = Raise e ->
  step model randn agents w = (Raise e, set_current_side r w1, evs1).
Proof.
  intros Hrun Hside Hsize Hobs. unfold step.
  unfold bind at 1. rewrite Hrun. unfold bind at 1. rewrite Hside.
  unfold bind at 1. unfold get at 1.
  cbn [_current_states set_current_side].
  rewrite Hsize, Nat.eqb_refl. cbn [negb].
  unfold bind at 1. unfold lift at 1.
  unfold set_current_side in Hobs |- *. rewrite Hobs.
  rewrite !app_nil_r. reflexivity.
Qed.

Lemma step_short_circuit model randn agents w w1 evs1 r :
  update_pubs_and_subs agents w = (Ok tt, w1, evs1) ->
  update_current_side w1 = (Ok tt, set_current_side r w1, []) ->
  size (_current_states w1) <> length agents ->
  step model randn agents w
  = (Ok (all_false agents), set_current_side r w1, evs1).
Proof.
  intros Hrun Hside Hsize. unfold step.
  unfold bind at 1. rewrite Hrun. unfold bind at 1. rewrite Hside.
  unfold bind, get, ret. cbn [_current_states set_current_side].
  apply Nat.eqb_neq in Hsize. rewrite Hsize. cbn [negb].
  rewrite !app_nil_r. reflexivity.
Qed.

(** X12.  A node without any start pose cannot run a tick: [step] creates
    the channels of the requested agents and then raises IndexError, before
    the count guard is looked at; the frame stays as it was and nothing of
    the action phase happens. *)
Theorem step_without_start_pose
    (model : list (list R) -> list (list R) -> R -> result (list (list R)))
    (randn : nat -> R) (agents : list string) (w : Node) :
  start_poses w = [] ->
  exists w' evs,
    step model randn agents w = (Raise IndexError, w', evs) /\
    Forall (fun e => pipeline_event e = false) evs /\
    _current_side w' = _current_side w /\
    (forall u, u ∈ agents -> is_Some (_vel_pubs w' !! u)).
Proof.
  intros Hs.
  destruct (update_pubs_and_subs_run agents w)
    as (w1 & evs1 & Hrun & Hev & Hpubs & _).
  assert (Hs1 : start_poses w1 = []).
  { rewrite <- Hs.
    apply (post_preserved start_poses _ _ _ _ _
             (update_pubs_and_subs_preserves _ agents
                (proj1 (proj2 (proj2 (proj2 channels_frame))))) Hrun). }
  exists w1, evs1. split; [| split; [| split]]; auto.
  - unfold step. unfold bind at 1. rewrite Hrun.
    unfold bind at 1. rewrite (update_current_side_empty w1 Hs1).
    rewrite app_nil_r. reflexivity.
  - assert (Hign : ignores_channels _current_side) by (split; reflexivity).
    apply (post_preserved _current_side _ _ _ _ _
             (update_pubs_and_subs_preserves _ agents Hign) Hrun).
Qed.

Lemma step_without_start_pose_witness :
  exists w' evs,
    step zero_policy no_noise ["a1"]
      (init_node [] ∅ default_params) = (Raise IndexError, w', evs).
Proof.
  destruct (step_without_start_pose zero_policy no_noise ["a1"]
              (init_node [] ∅ default_params) eq_refl)
    as (w' & evs & Hstep & _).
  exists w', evs. exact Hstep.
Defined.

Lemma build_obs_KeyError w agents acc :
  (exists u, u ∈ agents /\ is_Some (_current_states w !! u) /\
             goal_poses w !! u = None) ->
  build_obs w agents acc = Raise KeyError.
Proof.
  revert acc. induction agents as [| a agents IH]; intros acc (u & Hu & Hs & Hg).
  - inversion Hu.
  - cbn [build_obs].
    destruct (_current_states w !! a) as [cs |] eqn:Hcs.
    + destruct (goal_poses w !! a) as [gp |] eqn:Hgp; [| reflexivity].
      cbn [rbind]. rewrite !apply_canonical. cbn [rbind].
      apply IH. exists u. repeat split; auto.
      apply elem_of_cons in Hu as [-> | Hu]; [congruence | exact Hu].
    + apply IH. exists u. repeat split; auto.
      apply elem_of_cons in Hu as [-> | Hu]; [| exact Hu].
      rewrite Hcs in Hs. destruct Hs. discriminate.
Qed.

(** X13.  A tick that passes the count guard while a requested agent has a
    recorded state but no goal raises KeyError from the observation loop:
    the policy is not called and nothing is published. *)
Theorem step_without_goal
    (model : list (list R) -> list (list R) -> R -> result (list (list R)))
    (randn : nat -> R) (agents : list string) (w : Node) :
  start_poses w <> [] ->
  size (_current_states w) = length agents ->
  (exists u, u ∈ agents /\ is_Some (_current_states w !! u) /\
             goal_poses w !! u = None) ->
  exists w' evs,
    step model randn agents w = (Raise KeyError, w', evs) /\
    Forall (fun e => pipeline_event e = false) evs.
Proof.
  intros Hs Hsize Hmiss.
  destruct (start_poses w) as [| [k p] rest] eqn:Hsp; [contradiction |].
  destruct (step_prologue agents w k p rest Hsp)
    as (w1 & evs1 & Hrun & Hev & _ & Hside & Hcs & Hgp & _).
  eexists _, evs1. split; [| exact Hev].
  apply (step_obs_raises model randn agents w w1 evs1 _ KeyError Hrun Hside).
  - congruence.
  - apply build_obs_KeyError.
    cbn [_current_states goal_poses set_current_side].
    rewrite Hcs, Hgp. exact Hmiss.
Qed.

Lemma step_without_goal_witness :
  exists w' evs,
    step zero_policy no_noise ["a1"]
      (_update_current_state "a1" (state_at 0 0 0 0)
         (init_node [("a1", pose_at 0 1)] ∅ default_params))
    = (Raise KeyError, w', evs).
Proof.
  destruct (step_without_goal zero_policy no_noise ["a1"]
              (_update_current_state "a1" (state_at 0 0 0 0)
                 (init_node [("a1", pose_at 0 1)] ∅ default_params)))
    as (w' & evs & Hstep & _).
  - discriminate.
  - reflexivity.
  - exists "a1". split; [left |]. split; [eexists |]; reflexivity.
  - exists w', evs. exact Hstep.
Defined.

(** X14.  A tick that passes the count guard although no requested agent has
    a recorded state (no agent requested and none recorded, or as many
    foreign states as requested agents) does not return: the observation is
    empty, building the features raises IndexError, and the policy is not
    called. *)
Theorem step_with_empty_observation
    (model : list (list R) -> list (list R) -> R -> result (list (list R)))
    (randn : nat -> R) (agents : list string) (w : Node) :
  start_poses w <> [] ->
  size (_current_states w) = length agents ->
  known_agents w agents = [] ->
  exists w' evs,
    step model randn agents w = (Raise IndexError, w', evs) /\
    Forall (fun e => pipeline_event e = false) evs.
Proof.
  intros Hs Hsize Hnone.
  destruct (start_poses w) as [| [k p] rest] eqn:Hsp; [contradiction |].
  destruct (step_prologue agents w k p rest Hsp)
    as (w1 & evs1 & Hrun & Hev & _ & Hside & Hcs & _).
  eexists _, evs1. split; [| exact Hev].
  rewrite (step_passes_guard model randn agents w w1 evs1 _
             {| goal := []; pos := []; vel := [] |} Hrun Hside).
  - cbn. rewrite app_nil_r. reflexivity.
  - congruence.
  - apply build_obs_none.
    rewrite (known_agents_frame w _ agents); [exact Hnone | exact Hcs].
Qed.

Lemma step_with_empty_observation_witness :
  exists w' evs,
    step zero_policy no_noise ["b"] demo_node = (Raise IndexError, w', evs).
Proof.
  destruct (step_with_empty_observation zero_policy no_noise ["b"] demo_node)
    as (w' & evs & Hstep & _).
  - discriminate.
  - reflexivity.
  - reflexivity.
  - exists w', evs. exact Hstep.
Defined.

(** X15.  A failure of the policy ends the tick with that very failure.  On
    a tick that reaches the policy, let [obs] be the observation built from
    the node the prologue leaves, one row per controllable agent with a
    recorded state, and [x] its features: if the model raises on
    the arguments of this tick, (positions, [x], communication range),
    whatever it does on others, then [step] raises the same exception, the
    node is the one the prologue left, and the trace is the channel
    bookkeeping followed by the one call of the model; no action is sampled
    or filtered and no command is published. *)
Theorem step_policy_failure
    (model : list (list R) -> list (list R) -> R -> result (list (list R)))
    (randn : nat -> R) (agents : list string) (w : Node) :
  start_poses w <> [] ->
  size (_current_states w) = length agents ->
  (forall u, u ∈ agents -> is_Some (_current_states w !! u) ->
             is_Some (goal_poses w !! u)) ->
  known_agents w agents <> [] ->
  exists obs x,
    build_obs (after_prologue agents w) agents
      {| goal := []; pos := []; vel := [] |} = Ok obs /\
    features obs = Ok x /\
    length (pos obs) = length (known_agents w agents) /\
    Forall (fun ev => pipeline_event ev = false)
      (update_pubs_and_subs agents w).2 /\
    forall e,
      model (pos obs) x (comm_range (params w)) = Raise e ->
      step model randn agents w
      = (Raise e, after_prologue agents w,
         (update_pubs_and_subs agents w).2
         ++ [call_model (pos obs) x (comm_range (params w))]) /\
      published ((update_pubs_and_subs agents w).2
                 ++ [call_model (pos obs) x (comm_range (params w))]) = [].
Proof.
  intros Hs Hsize Hgoals Hknown.
  destruct (start_poses w) as [| [k p] rest] eqn:Hsp; [contradiction |].
  destruct (step_prologue agents w k p rest Hsp)
    as (w1 & evs1 & Hrun & Hev & _ & Hside & Hcs & Hgp & Hpa & _).
  set (side := Rotation.from_euler_z
                 (if Rlt_dec 0 (Point.y (position p)) then PI else 0)) in *.
  assert (Hap : after_prologue agents w = set_current_side side w1).
  { unfold after_prologue. rewrite Hrun. cbn [fst snd].
    rewrite Hside. reflexivity. }
  set (w0 := after_prologue agents w) in *.
  assert (Hcs0 : _current_states w0 = _current_states w)
    by (rewrite Hap; exact Hcs).
  assert (Hgp0 : goal_poses w0 = goal_poses w) by (rewrite Hap; exact Hgp).
  assert (Hpa0 : params w0 = params w) by (rewrite Hap; exact Hpa).
  destruct (build_obs_total w0 agents {| goal := []; pos := []; vel := [] |})
    as [obs Hobs].
  { intros u Hu. rewrite Hcs0, Hgp0. apply Hgoals, Hu. }
  destruct (build_obs_rows w0 agents obs Hobs) as (Hlp & Hlv & Hlg & _).
  destruct (build_obs_planar w0 agents obs Hobs) as (Fg & Fp & Fv).
  rewrite (known_agents_frame w w0 agents Hcs0) in Hlp, Hlv, Hlg.
  assert (Hne : pos obs <> []).
  { intros Hnil. rewrite Hnil in Hlp. apply Hknown.
    destruct (known_agents w agents); [reflexivity | discriminate]. }
  assert (Ht : obs_tensors obs = Ok obs)
    by (apply obs_tensors_planar; assumption).
  assert (Hf : exists x, features obs = Ok x)
    by (eexists; apply features_planar; auto; congruence).
  destruct Hf as [x Hf].
  rewrite Hrun. cbn [snd].
  exists obs, x. split; [exact Hobs |]. split; [exact Hf |].
  split; [exact Hlp |]. split; [exact Hev |].
  intros e Hfail. split.
  - rewrite (step_passes_guard model randn agents w w1 evs1 side obs Hrun
               Hside).
    + fold w0 in Hap. rewrite <- Hap.
      rewrite (action_phase_policy model randn agents obs x w0 Ht Hf).
      rewrite Hpa0, Hfail. reflexivity.
    + congruence.
    + rewrite <- Hap. exact Hobs.
  - unfold published. rewrite omap_app. fold (published evs1).
    rewrite (published_quiet evs1 Hev). reflexivity.
Qed.

Lemma step_policy_failure_witness :
  exists obs x,
    features obs = Ok x /\
    step lonely_policy no_noise ["a1"] demo_node
    = (Raise ModelError, after_prologue ["a1"] demo_node,
       (update_pubs_and_subs ["a1"] demo_node).2
       ++ [call_model (pos obs) x 2]).
Proof.
  destruct (step_policy_failure lonely_policy no_noise ["a1"] demo_node)
    as (obs & x & _ & Hf & Hlen & _ & Hfail).
  - discriminate.
  - reflexivity.
  - intros u Hu _. agent_cases Hu. eexists. reflexivity.
  - vm_compute. discriminate.
  - exists obs, x. split; [exact Hf |].
    apply (Hfail ModelError).
    assert (Hk : length (known_agents demo_node ["a1"]) = 1%nat)
      by (vm_compute; reflexivity).
    rewrite Hk in Hlen.
    destruct (pos obs) as [| r [| r' l]];
      [discriminate Hlen | reflexivity | discriminate Hlen].
Defined.

Lemma all_false_dom agents :
  dom (all_false agents) = list_to_set agents.
Proof.
  apply set_eq. intros a. rewrite elem_of_dom, elem_of_list_to_set.
  unfold all_false. rewrite all_false_acc.
  destruct (decide (a ∈ agents)) as [Hin | Hnin].
  - split; eauto.
  - rewrite lookup_empty. split; [intros [? ?]; discriminate | contradiction].
Qed.

Lemma compute_dones_dom P agents obs :
  forall i dones result,
    compute_dones P agents obs i dones = Ok result ->
    dom result = dom dones ∪ list_to_set agents.
Proof.
  induction agents as [| a agents IH]; intros i dones result Hc.
  - injection Hc as <-. rewrite list_to_set_nil, union_empty_r_L.
    reflexivity.
  - cbn [compute_dones] in Hc.
    destruct (index (pos obs) i) as [p | e]; [| discriminate].
    destruct (index (goal obs) i) as [g | e]; [| discriminate].
    cbn [rbind] in Hc.
    destruct (np_sub p g) as [d | e]; [| discriminate].
    cbn [rbind] in Hc.
    rewrite (IH _ _ _ Hc), dom_insert_L, list_to_set_cons.
    apply set_eq. intros u. rewrite !elem_of_union. tauto.
Qed.

(** X16.  Whenever [step] returns, on a short-circuited tick as on a full
    one, the keys of the returned dictionary are exactly the requested
    agents. *)
Theorem step_keys
    (model : list (list R) -> list (list R) -> R -> result (list (list R)))
    (randn : nat -> R) (agents : list string) (w : Node)
    (dones : gmap string bool) (w' : Node) (evs : list Event) :
  step model randn agents w = (Ok dones, w', evs) ->
  dom dones = list_to_set agents.
Proof.
  intros Hstep. unfold step in Hstep.
  apply bind_Ok_inv in Hstep as ([] & w1 & t1 & t1' & Hrun & Hstep & _).
  apply bind_Ok_inv in Hstep as ([] & w2 & t2 & t2' & Hside & Hstep & _).
  apply bind_Ok_inv in Hstep as (w3 & w3' & t3 & t3' & Hget & Hstep & _).
  apply get_Ok_inv in Hget as (-> & -> & _).
  destruct (negb _).
  - injection Hstep as <- _ _. apply all_false_dom.
  - apply bind_Ok_inv in Hstep as (obs & w4 & t4 & t4' & _ & Hstep & _).
    apply bind_Ok_inv in Hstep as (tensors & w5 & t5 & t5' & _ & Hstep & _).
    apply bind_Ok_inv in Hstep as (actions & w6 & t6 & t6' & _ & Hstep & _).
    apply bind_Ok_inv in Hstep as ([] & w7 & t7 & t7' & _ & Hstep & _).
    apply bind_Ok_inv in Hstep as (w8 & w8' & t8 & t8' & _ & Hstep & _).
    apply lift_Ok_inv in Hstep as (Hdone & _ & _).
    rewrite (compute_dones_dom _ _ _ _ _ _ Hdone), dom_empty_L.
    apply union_empty_l_L.
Qed.

Lemma step_keys_witness :
  exists dones w' evs,
    step zero_policy no_noise ["a1"; "a2"] demo_node = (Ok dones, w', evs) /\
    dom dones = list_to_set ["a1"; "a2"].
Proof.
  destruct (step_prologue ["a1"; "a2"] demo_node "a1" (pose_at 0 1) [] eq_refl)
    as (w1 & evs1 & Hrun & _ & _ & Hside & Hcs & _).
  assert (Hsize : size (_current_states w1) <> length ["a1"; "a2"]).
  { rewrite Hcs. vm_compute. discriminate. }
  pose proof (step_short_circuit zero_policy no_noise _ _ _ _ _
                Hrun Hside Hsize) as Hstep.
  eexists _, _, _. split; [exact Hstep |].
  exact (step_keys _ _ _ _ _ _ _ Hstep).
Defined.

(** ** Every published command respects the velocity bound *)

Lemma filter_output_bounded P action velocity out :
  0 <= max_v P ->
  action_constrain_vel_acc P action velocity = Ok out ->
  Forall (fun o => - max_v P <= o <= max_v P) out.
Proof.
  intros HV. unfold action_constrain_vel_acc.
  destruct (np_sub _ velocity) as [d | e]; [| discriminate]. cbn [rbind].
  destruct (np_add velocity _) as [pv | e]; [| discriminate]. cbn [rbind].
  intros [= <-]. unfold np_clip. apply Forall_map, Forall_forall.
  intros o _. apply clip1_bounds. lra.
Qed.

Lemma quiet_bounded P evs :
  Forall (fun e => pipeline_event e = false) evs ->
  Forall (bounded_command P) evs.
Proof.
  intros H. eapply Forall_impl; [exact H |].
  intros e He. destruct e; try exact I. discriminate.
Qed.

Lemma apply_planar_only r (out : list R) :
  length out <> 2%nat -> Rotation.apply r (out ++ [0]) = Raise ValueError.
Proof.
  intros Hlen. destruct out as [| o1 [| o2 [| o3 [| o4 out]]]];
    try reflexivity. contradiction.
Qed.

Lemma publish_command_bounded P item w :
  Rotation.angle (_current_side w) = 0 \/
  Rotation.angle (_current_side w) = PI ->
  params w = P -> 0 <= max_v P ->
  Forall (bounded_command P) (publish_command item w).2 /\
  (publish_command item w).1.2 = w.
Proof.
  intros Hang HP HV. destruct item as [[u a] v].
  unfold publish_command, bind, get, tell, lift.
  destruct (_vel_pubs w !! u) as [t |];
    [| cbn; split; [constructor | reflexivity]].
  destruct (action_constrain_vel_acc (params w) a v) as [out | e] eqn:Hf;
    [| cbn; split; [repeat constructor | reflexivity]].
  rewrite HP in Hf. apply (filter_output_bounded P a v out HV) in Hf.
  destruct (decide (length out = 2%nat)) as [Hlen | Hlen].
  - destruct out as [| o1 [| o2 [| o3 out]]]; try discriminate.
    inversion Hf as [| ? ? Ho1 Hf']; subst.
    inversion Hf' as [| ? ? Ho2 _]; subst.
    cbn [app]. rewrite apply_canonical. unfold canonical.
    destruct Hang as [-> | ->];
      rewrite ?cos_0, ?sin_0, ?cos_PI, ?sin_PI; cbn;
      (split; [| reflexivity]);
      (constructor; [exact I | constructor; [| constructor]]); cbn;
      (split; [apply Rabs_le; lra | split; [apply Rabs_le; lra | reflexivity]]).
  - rewrite (apply_planar_only _ out Hlen). cbn.
    split; [repeat constructor | reflexivity].
Qed.

Lemma publish_loop_bounded P items w :
  Rotation.angle (_current_side w) = 0 \/
  Rotation.angle (_current_side w) = PI ->
  params w = P -> 0 <= max_v P ->
  Forall (bounded_command P) (for_each publish_command items w).2 /\
  (for_each publish_command items w).1.2 = w.
Proof.
  intros Hang HP HV. induction items as [| item items IH].
  - split; [constructor | reflexivity].
  - cbn [for_each]. unfold bind.
    destruct (publish_command_bounded P item w Hang HP HV) as [Hev Hpost].
    destruct (publish_command item w) as [[[[] | e] w1] t1];
      cbn [fst snd] in Hev, Hpost; subst w1.
    + destruct IH as [Hev' Hpost'].
      destruct (for_each publish_command items w) as [[r w2] t2].
      cbn [fst snd] in *. split; [apply Forall_app; auto | assumption].
    + split; [assumption | reflexivity].
Qed.

Lemma run_model_bounded P model randn obs w :
  Forall (bounded_command P) (run_model model randn obs w).2.
Proof.
  unfold run_model, bind, get, lift, tell.
  destruct (features obs) as [x | e]; [| constructor].
  destruct (model _ _ _) as [logits | e]; [| repeat constructor].
  pose proof (sample_actions_events randn logits w) as Hev.
  destruct (sample_actions randn logits w) as [[r w'] t].
  cbn in Hev |- *. constructor; [exact I |].
  eapply Forall_impl; [exact Hev |]. intros e [l ->]. exact I.
Qed.

Lemma bind_events_Forall {A B} (Q : Event -> Prop) (m : M A) (k : A -> M B) w :
  Forall Q (m w).2 ->
  (forall a, (m w).1.1 = Ok a -> Forall Q (k a (m w).1.2).2) ->
  Forall Q (bind m k w).2.
Proof.
  unfold bind. destruct (m w) as [[[a | e] w1] t1]; cbn [fst snd];
    intros Hm Hk; [| exact Hm].
  specialize (Hk a eq_refl). destruct (k a w1) as [[r w2] t2].
  cbn [snd] in *. apply Forall_app. auto.
Qed.

Lemma action_phase_bounded P model randn agents obs w :
  Rotation.angle (_current_side w) = 0 \/
  Rotation.angle (_current_side w) = PI ->
  params w = P -> 0 <= max_v P ->
  Forall (bounded_command P) (action_phase model randn agents obs w).2.
Proof.
  intros Hang HP HV. unfold action_phase.
  apply bind_events_Forall; [constructor | intros tensors _].
  cbn [lift fst snd].
  apply bind_events_Forall; [apply run_model_bounded | intros actions _].
  set (w3 := (run_model model randn tensors w).1.2).
  assert (Hang3 : Rotation.angle (_current_side w3) = 0 \/
                  Rotation.angle (_current_side w3) = PI).
  { unfold w3.
    rewrite (run_model_preserves _current_side model randn tensors
               (proj2 (proj2 rng_frame)) w). exact Hang. }
  assert (HP3 : params w3 = P).
  { unfold w3.
    rewrite (run_model_preserves params model randn tensors
               (proj1 rng_frame) w). exact HP. }
  apply bind_events_Forall.
  - apply (publish_loop_bounded P _ w3 Hang3 HP3 HV).
  - intros _ _. apply bind_events_Forall; [constructor |].
    intros w4 _. constructor.
Qed.

(** X17.  With a velocity bound that is not negative, whatever the policy
    returns and however the tick ends, every command [step] publishes is
    within [-max_v, max_v] on each world axis and carries the heading
    pi / 2. *)
Theorem step_commands_bounded
    (model : list (list R) -> list (list R) -> R -> result (list (list R)))
    (randn : nat -> R) (agents : list string) (w : Node) :
  0 <= max_v (params w) ->
  Forall (bounded_command (params w)) (step model randn agents w).2.
Proof.
  intros HV.
  destruct (update_pubs_and_subs_run agents w)
    as (w1 & evs1 & Hrun & Hev & _ & _).
  pose proof (quiet_bounded (params w) evs1 Hev) as Hq.
  assert (Hpa : params w1 = params w).
  { apply (post_preserved params _ _ _ _ _
             (update_pubs_and_subs_preserves _ agents
                (proj1 (proj2 (proj2 channels_frame)))) Hrun). }
  destruct (start_poses w1) as [| [k p] rest] eqn:Hsp.
  - unfold step. unfold bind at 1. rewrite Hrun.
    unfold bind at 1. rewrite (update_current_side_empty w1 Hsp).
    cbn [snd]. rewrite app_nil_r. exact Hq.
  - pose proof (update_current_side_run w1 k p rest Hsp) as Hside.
    set (side := Rotation.from_euler_z
                   (if Rlt_dec 0 (Point.y (position p)) then PI else 0)) in *.
    destruct (decide (size (_current_states w1) = length agents))
      as [Hsize | Hsize].
    + destruct (build_obs (set_current_side side w1) agents
                  {| goal := []; pos := []; vel := [] |})
        as [obs | e] eqn:Hobs.
      * rewrite (step_passes_guard model randn agents w w1 evs1 side obs
                   Hrun Hside Hsize Hobs).
        pose proof (action_phase_bounded (params w) model randn agents obs
                      (set_current_side side w1)) as Hph.
        destruct (action_phase model randn agents obs _) as [[res w'] t].
        cbn [snd] in *. apply Forall_app. split; [exact Hq |].
        apply Hph; auto.
        unfold side. cbn. destruct (Rlt_dec 0 _); auto.
      * rewrite (step_obs_raises model randn agents w w1 evs1 side e
                   Hrun Hside Hsize Hobs). exact Hq.
    + rewrite (step_short_circuit model randn agents w w1 evs1 side
                 Hrun Hside Hsize). exact Hq.
Qed.

Lemma step_commands_bounded_witness :
  Forall (bounded_command default_params)
    (step zero_policy no_noise ["a1"] demo_node).2.
Proof.
  apply (step_commands_bounded zero_policy no_noise ["a1"] demo_node).
  simpl. lra.
Defined.

(** ** Count mismatch and full ticks *)

(** X18.  The guard short-circuits on any difference between the number of
    recorded states and the number of requested agents, also when more
    states are recorded than agents are requested: [step] then returns false
    for every requested agent, the tick emits channel creations only and
    takes no draw. *)
Theorem step_count_mismatch
    (model : list (list R) -> list (list R) -> R -> result (list (list R)))
    (randn : nat -> R) (agents : list string) (w : Node) :
  start_poses w <> [] ->
  size (_current_states w) <> length agents ->
  exists w' evs,
    step model randn agents w = (Ok (all_false agents), w', evs) /\
    (forall agent, agent ∈ agents -> all_false agents !! agent = Some false) /\
    Forall (fun e => pipeline_event e = false) evs /\
    rng_pos w' = rng_pos w.
Proof.
  intros Hs Hsize.
  destruct (start_poses w) as [| [k p] rest] eqn:Hsp; [contradiction |].
  destruct (step_prologue agents w k p rest Hsp)
    as (w1 & evs1 & Hrun & Hev & _ & Hside & Hcs & _ & _ & Hrng).
  eexists _, evs1. split; [| split; [| split]].
  - apply (step_short_circuit model randn agents w w1 evs1 _ Hrun Hside).
    congruence.
  - apply all_false_lookup.
  - exact Hev.
  - exact Hrng.
Qed.

Lemma step_count_mismatch_witness :
  exists w' evs,
    step zero_policy no_noise ["a1"] crowded_node
    = (Ok (all_false ["a1"]), w', evs).
Proof.
  destruct (step_count_mismatch zero_policy no_noise ["a1"] crowded_node)
    as (w' & evs & Hstep & _).
  - discriminate.
  - vm_compute. discriminate.
  - exists w', evs. exact Hstep.
Defined.

(** X19.  On a tick where every requested agent has a recorded state and a
    goal and the policy keeps its contract, [step] returns and publishes
    exactly one command per requested agent, in the caller's order. *)
Theorem step_publishes_each_agent
    (model : list (list R) -> list (list R) -> R -> result (list (list R)))
    (randn : nat -> R) (agents : list string) (w : Node) :
  start_poses w <> [] -> agents <> [] ->
  size (_current_states w) = length agents ->
  (forall agent, agent ∈ agents ->
     is_Some (_current_states w !! agent) /\
     is_Some (goal_poses w !! agent)) ->
  planar_policy model ->
  exists dones w' evs,
    step model randn agents w = (Ok dones, w', evs) /\
    published evs = agents.
Proof.
  intros Hne Hag Hsize Hall Hpol.
  destruct (start_poses w) as [| [k p] rest] eqn:Hs; [contradiction |].
  assert (Hknown : known_agents w agents = agents).
  { apply filter_Forall_id, Forall_forall. intros u Hu. apply (Hall u Hu). }
  destruct (step_tick model randn agents w k p rest Hs Hsize)
    as (w1 & evs1 & obs & x & Hev & Hpubs & Hcs & Hgp & Hpa & Hobs & Ht & Hf
        & Hstep).
  { intros u Hu _. apply (Hall u Hu). }
  { rewrite Hknown. exact Hag. }
  set (w2 := set_current_side _ w1) in *.
  destruct (build_obs_rows w2 agents obs Hobs) as (Hlp & Hlv & _ & Hrows).
  destruct (build_obs_planar w2 agents obs Hobs) as (_ & _ & Fv).
  rewrite (known_agents_frame w w2 agents Hcs), Hknown in Hlp, Hlv, Hrows.
  destruct (action_phase_planar model randn agents obs x w2 Hpol Ht Hf)
    as (w' & t & Hphase & Hpub); auto; try lia.
  destruct (compute_dones_total (params w2) agents obs 0 ∅) as [dones Hd].
  { intros j Hj. cbn [Nat.add].
    destruct (lookup_lt_is_Some_2 agents j Hj) as [u Hu].
    destruct (Hrows j u Hu) as (cs & gp & _ & _ & Hg' & Hp' & _).
    unfold canonical in Hg', Hp'. eauto 8. }
  exists dones, w',
    (evs1 ++ call_model (pos obs) x (comm_range (params w2)) :: t).
  split.
  - rewrite Hstep, Hphase, Hd. reflexivity.
  - unfold published. rewrite omap_app. fold (published evs1).
    rewrite (published_quiet evs1 Hev). cbn [app omap list_omap].
    fold (published t). rewrite Hpub, Hlp. apply firstn_all.
Qed.

Lemma step_publishes_each_agent_witness :
  exists dones w' evs,
    step zero_policy no_noise ["a1"] demo_node = (Ok dones, w', evs) /\
    published evs = ["a1"].
Proof.
  apply (step_publishes_each_agent zero_policy no_noise ["a1"] demo_node).
  - discriminate.
  - discriminate.
  - reflexivity.
  - intros agent Hu. agent_cases Hu. split; eexists; reflexivity.
  - exact zero_policy_planar.
Defined.
